(** * Warehouse management system: the in-memory engine of [project.cpp]

    A shallow embedding of the classes [InventoryItem], [Transaction],
    [CategoryNode], [Order] and [WarehouseSystem], and the properties of
    the engine stated over it. *)

From Stdlib Require Import ZArith List String Ascii Bool Lia.
From Stdlib Require Import Sorted Permutation.
From Stdlib Require Import DecimalString.
From Stdlib Require DecimalPos DecimalZ.
From Stdlib Require Import Uint63 PrimFloat SpecFloat FloatOps.
Import ListNotations.

#[local] Set Warnings "-inexact-float".
#[local] Set Warnings "-register-all".

Local Open Scope string_scope.
Local Open Scope Z_scope.

(** ** Machine integers

    [int] is a 32-bit two's complement integer.  Values are carried in [Z];
    every arithmetic result of the source goes through [wrap]. *)

Definition int_min : Z := - 2 ^ 31.
Definition int_max : Z := 2 ^ 31 - 1.

Definition in_int (z : Z) : Prop := int_min <= z <= int_max.

Definition in_intb (z : Z) : bool := (int_min <=? z) && (z <=? int_max).

Definition wrap (z : Z) : Z := (z + 2 ^ 31) mod 2 ^ 32 - 2 ^ 31.

(** [std::time_t] values, read from the clock by the caller. *)
Definition time_t := Z.

(** [std::to_string(int)] and [operator<<(int)] in the classic locale. *)
Definition to_string (z : Z) : string := NilZero.string_of_int (Z.to_int z).

(** ** The data classes *)

Record InventoryItem := mkItem {
  getId : Z;
  getName : string;
  getCategory : string;
  getQuantity : Z;
  getPrice : float;
  getMinStockLevel : Z
}.

Definition setQuantity (newQuantity : Z) (it : InventoryItem) : InventoryItem :=
  mkItem (getId it) (getName it) (getCategory it) newQuantity
         (getPrice it) (getMinStockLevel it).

Definition isLowStock (it : InventoryItem) : bool :=
  getQuantity it <=? getMinStockLevel it.

Record Transaction := mkTransaction {
  timestamp : time_t;
  action : string;
  txItemId : Z;
  details : string
}.

Record Order := mkOrder {
  getOrderId : Z;
  getItemId : Z;
  getOrderQuantity : Z;
  getStatus : string;
  getOrderTime : time_t
}.

(** The constructor [Order(orderId, itemId, quantity)]. *)
Definition newOrder (now : time_t) (orderId itemId quantity : Z) : Order :=
  mkOrder orderId itemId quantity "Pending" now.

Definition setStatus (newStatus : string) (o : Order) : Order :=
  mkOrder (getOrderId o) (getItemId o) (getOrderQuantity o) newStatus
          (getOrderTime o).

#[local] Unset Elimination Schemes.
Inductive CategoryNode :=
  Node (name : string) (children : list CategoryNode) (itemIds : list Z).
#[local] Set Elimination Schemes.

Definition nodeName (n : CategoryNode) : string :=
  match n with Node nm _ _ => nm end.

(** ** [std::map<int, InventoryItem>]

    The map is kept as the sequence of its entries in ascending key order,
    which is the order every range-for of the source visits them in. *)

Definition inventory_t := list (Z * InventoryItem).

Fixpoint map_find (k : Z) (m : inventory_t) : option InventoryItem :=
  match m with
  | [] => None
  | (k', v) :: m' => if k' =? k then Some v else map_find k m'
  end.

(** [m[k] = v]: overwrite the entry of [k], or create it at its place. *)
Fixpoint map_assign (k : Z) (v : InventoryItem) (m : inventory_t) : inventory_t :=
  match m with
  | [] => [(k, v)]
  | (k', v') :: m' =>
      if k <? k' then (k, v) :: (k', v') :: m'
      else if k =? k' then (k, v) :: m'
      else (k', v') :: map_assign k v m'
  end.

(** The entry of [k] changed through the pointer [find] returns. *)
Fixpoint map_modify (k : Z) (f : InventoryItem -> InventoryItem) (m : inventory_t)
    : inventory_t :=
  match m with
  | [] => []
  | (k', v') :: m' =>
      if k' =? k then (k', f v') :: m' else (k', v') :: map_modify k f m'
  end.

Fixpoint map_erase (k : Z) (m : inventory_t) : inventory_t :=
  match m with
  | [] => []
  | (k', v') :: m' => if k' =? k then m' else (k', v') :: map_erase k m'
  end.

(** ** Exceptions of the string conversions *)

Inductive exception := invalid_argument | out_of_range.

Inductive result (A : Type) :=
| Ok (a : A)
| Throw (e : exception).
Arguments Ok {A} a.
Arguments Throw {A} e.

Definition bind {A B} (r : result A) (k : A -> result B) : result B :=
  match r with
  | Ok a => k a
  | Throw e => Throw e
  end.

Notation "x <- r ;; k" := (bind r (fun x => k))
  (at level 61, r at next level, right associativity).

(** ** [std::stoi] *)

Definition isspace (c : ascii) : bool :=
  let n := nat_of_ascii c in
  (Nat.eqb n 32 || (Nat.leb 9 n && Nat.leb n 13))%bool.

Fixpoint skip_space (s : string) : string :=
  match s with
  | String c s' => if isspace c then skip_space s' else s
  | EmptyString => EmptyString
  end.

Definition digit_of (c : ascii) : option (Decimal.uint -> Decimal.uint) :=
  match c with
  | "0"%char => Some Decimal.D0 | "1"%char => Some Decimal.D1
  | "2"%char => Some Decimal.D2 | "3"%char => Some Decimal.D3
  | "4"%char => Some Decimal.D4 | "5"%char => Some Decimal.D5
  | "6"%char => Some Decimal.D6 | "7"%char => Some Decimal.D7
  | "8"%char => Some Decimal.D8 | "9"%char => Some Decimal.D9
  | _ => None
  end.

(** The longest prefix of decimal digits. *)
Fixpoint read_digits (s : string) : Decimal.uint :=
  match s with
  | String c s' =>
      match digit_of c with
      | Some d => d (read_digits s')
      | None => Decimal.Nil
      end
  | EmptyString => Decimal.Nil
  end.

(** Leading white space is skipped, an optional sign and the digits are
    read and whatever follows is ignored; no digit raises
    [invalid_argument], a value outside [int] raises [out_of_range]. *)
Definition stoi (s : string) : result Z :=
  let s1 := skip_space s in
  let '(neg, s2) :=
    match s1 with
    | String "-"%char r => (true, r)
    | String "+"%char r => (false, r)
    | _ => (false, s1)
    end in
  match read_digits s2 with
  | Decimal.Nil => Throw invalid_argument
  | ds =>
      let v := if neg : bool then - Z.of_uint ds else Z.of_uint ds in
      if in_intb v then Ok v else Throw out_of_range
  end.

(** ** [std::getline] with a delimiter

    An input stream is what is left to read and whether it is still good
    (neither [eofbit] nor [failbit] set). *)

Record istream := mkStream { unread : string; good : bool }.

(** The characters up to the first [delim], and what follows it. *)
Fixpoint cut (delim : ascii) (s : string) : string * option string :=
  match s with
  | EmptyString => (EmptyString, None)
  | String c s' =>
      if Ascii.eqb c delim then (EmptyString, Some s')
      else let '(tok, rest) := cut delim s' in (String c tok, rest)
  end.

(** [std::getline(in, str, delim)] with [old] the value of [str] before the
    call: a stream that is not good leaves [str] alone; otherwise [str] is
    erased and filled up to the delimiter, which is discarded, or up to the
    end of the input, which sets [eofbit]. *)
Definition getline (delim : ascii) (old : string) (i : istream) : string * istream :=
  if good i then
    match cut delim (unread i) with
    | (tok, Some rest) => (tok, mkStream rest true)
    | (tok, None) => (tok, mkStream EmptyString false)
    end
  else (old, i).

(** The values [str] takes in [while (std::getline(in, str, delim))]. *)
Fixpoint getline_loop_from (delim : ascii) (acc : string) (s : string) : list string :=
  match s with
  | EmptyString => if String.eqb acc EmptyString then [] else [acc]
  | String c s' =>
      if Ascii.eqb c delim then acc :: getline_loop_from delim EmptyString s'
      else getline_loop_from delim (acc ++ String c EmptyString) s'
  end.

Definition getline_loop (delim : ascii) (s : string) : list string :=
  getline_loop_from delim EmptyString s.

(** ** What the engine takes from the C++ runtime

    The text [operator<<] writes for a [double] under [std::fixed] and
    [std::setprecision(2)], [std::stod], and [std::sort] on a vector of
    items with a comparator. *)

Class Runtime := {
  fixed2 : float -> string;
  stod : string -> result float;
  std_sort : (InventoryItem -> InventoryItem -> bool) ->
             list InventoryItem -> list InventoryItem
}.

(** ** The category tree *)

Definition push_itemId (id : Z) (n : CategoryNode) : CategoryNode :=
  match n with Node nm cs ids => Node nm cs (ids ++ [id])%list end.

(** [findOrCreateCategory] walks the path from a node, appending a child
    for every missing segment; [f] is what the caller then does to the node
    the returned pointer designates. *)
Fixpoint walkOrCreate (path : list string) (f : CategoryNode -> CategoryNode)
    (n : CategoryNode) : CategoryNode :=
  match path with
  | [] => f n
  | seg :: rest =>
      match n with
      | Node nm cs ids =>
          let fix first_named (cs : list CategoryNode) : list CategoryNode :=
            match cs with
            | [] => [walkOrCreate rest f (Node seg [] [])]
            | c :: cs' =>
                if String.eqb (nodeName c) seg
                then walkOrCreate rest f c :: cs'
                else c :: first_named cs'
            end in
          Node nm (first_named cs) ids
      end
  end.

Definition findOrCreateCategory (category : string)
    (f : CategoryNode -> CategoryNode) (root : CategoryNode) : CategoryNode :=
  walkOrCreate (getline_loop "/" category) f root.

(** ** [WarehouseSystem]

    The members of the class, and with them the two things outside the
    object its methods write: the content of the file [filename] ([None]
    while the file does not exist) and the text sent to [std::cout].
    The stack is kept top first, the queue front first. *)

Record WarehouseSystem := mkSystem {
  inventory : inventory_t;
  nextId : Z;
  transactionHistory : list Transaction;
  orderQueue : list Order;
  categoryRoot : CategoryNode;
  nextOrderId : Z;
  file : option string;
  cout : string
}.

Definition set_inventory (m : inventory_t) (s : WarehouseSystem) :=
  mkSystem m (nextId s) (transactionHistory s) (orderQueue s)
           (categoryRoot s) (nextOrderId s) (file s) (cout s).
Definition set_nextId (n : Z) (s : WarehouseSystem) :=
  mkSystem (inventory s) n (transactionHistory s) (orderQueue s)
           (categoryRoot s) (nextOrderId s) (file s) (cout s).
Definition set_transactionHistory (h : list Transaction) (s : WarehouseSystem) :=
  mkSystem (inventory s) (nextId s) h (orderQueue s)
           (categoryRoot s) (nextOrderId s) (file s) (cout s).
Definition set_orderQueue (q : list Order) (s : WarehouseSystem) :=
  mkSystem (inventory s) (nextId s) (transactionHistory s) q
           (categoryRoot s) (nextOrderId s) (file s) (cout s).
Definition set_categoryRoot (r : CategoryNode) (s : WarehouseSystem) :=
  mkSystem (inventory s) (nextId s) (transactionHistory s) (orderQueue s)
           r (nextOrderId s) (file s) (cout s).
Definition set_nextOrderId (n : Z) (s : WarehouseSystem) :=
  mkSystem (inventory s) (nextId s) (transactionHistory s) (orderQueue s)
           (categoryRoot s) n (file s) (cout s).
Definition set_file (f : option string) (s : WarehouseSystem) :=
  mkSystem (inventory s) (nextId s) (transactionHistory s) (orderQueue s)
           (categoryRoot s) (nextOrderId s) f (cout s).

(** [std::cout << text]. *)
Definition print (text : string) (s : WarehouseSystem) :=
  mkSystem (inventory s) (nextId s) (transactionHistory s) (orderQueue s)
           (categoryRoot s) (nextOrderId s) (file s) (cout s ++ text).

Definition nl : ascii := "010"%char.

Definition newline : string := String nl EmptyString.

Section Engine.

Context {R : Runtime}.

(** *** Persistence *)

Definition csv_header : string :=
  "ID,Name,Category,Quantity,Price,MinStockLevel" ++ newline.

Definition csv_row (item : InventoryItem) : string :=
  to_string (getId item) ++ "," ++ getName item ++ "," ++ getCategory item
  ++ "," ++ to_string (getQuantity item) ++ "," ++ fixed2 (getPrice item)
  ++ "," ++ to_string (getMinStockLevel item) ++ newline.

Fixpoint csv_rows (m : inventory_t) : string :=
  match m with
  | [] => EmptyString
  | (_, item) :: m' => csv_row item ++ csv_rows m'
  end.

(** What [saveToFile] writes. *)
Definition csv_of (m : inventory_t) : string := csv_header ++ csv_rows m.

(** The stream is taken to open and the write to go through.  The source
    does not test the stream, and when the file cannot be opened it
    writes nothing and reports nothing: [file] after a call is what the
    call sent to the stream, and no property below concludes that the disk
    holds it. *)
Definition saveToFile (s : WarehouseSystem) : WarehouseSystem :=
  set_file (Some (csv_of (inventory s))) s.

(** The body of the reading loop for one line; [token] is reused by the
    four numeric fields and is a fresh empty string at each line. *)
Definition parse_line (line : string) : result InventoryItem :=
  let ss := mkStream line true in
  let '(token, ss) := getline "," EmptyString ss in
  id <- stoi token ;;
  let '(name, ss) := getline "," EmptyString ss in
  let '(category, ss) := getline "," EmptyString ss in
  let '(token, ss) := getline "," token ss in
  quantity <- stoi token ;;
  let '(token, ss) := getline "," token ss in
  price <- stod token ;;
  let '(token, ss) := getline "," token ss in
  minStockLevel <- stoi token ;;
  Ok (mkItem id name category quantity price minStockLevel).

Fixpoint load_lines (lines : list string) (m : inventory_t) (next : Z)
    : result (inventory_t * Z) :=
  match lines with
  | [] => Ok (m, next)
  | line :: lines' =>
      item <- parse_line line ;;
      load_lines lines' (map_assign (getId item) item m)
                 (Z.max next (wrap (getId item + 1)))
  end.

(** The first line read is the header and is dropped. *)
Definition loadFromFile (s : WarehouseSystem) : result WarehouseSystem :=
  match file s with
  | None => Ok s
  | Some text =>
      r <- load_lines (tl (getline_loop nl text))
                      (inventory s) (nextId s) ;;
      Ok (set_nextId (snd r) (set_inventory (fst r) s))
  end.

(** A row without the end of line. *)
Definition csv_line (item : InventoryItem) : string :=
  to_string (getId item) ++ "," ++ getName item ++ "," ++ getCategory item
  ++ "," ++ to_string (getQuantity item) ++ "," ++ fixed2 (getPrice item)
  ++ "," ++ to_string (getMinStockLevel item).

(** When a record can be read back from its row: no field holds a comma
    or a line feed, and the text of the price is read as a price with the
    same text. *)
Fixpoint free_of (d : ascii) (t : string) : bool :=
  match t with
  | EmptyString => true
  | String c t' => negb (Ascii.eqb c d) && free_of d t'
  end.

Definition field_clean (t : string) : bool :=
  free_of "," t && free_of nl t.

Definition price_survives (p : float) : bool :=
  match stod (fixed2 p) with
  | Ok p' => String.eqb (fixed2 p') (fixed2 p)
  | Throw _ => false
  end.

Definition saves_cleanly (item : InventoryItem) : bool :=
  field_clean (getName item) && field_clean (getCategory item)
  && field_clean (fixed2 (getPrice item)) && price_survives (getPrice item).

(** Equal records, the prices up to their two-decimal text. *)
Definition same_to_cents (a b : InventoryItem) : Prop :=
  getId a = getId b /\ getName a = getName b
  /\ getCategory a = getCategory b /\ getQuantity a = getQuantity b
  /\ fixed2 (getPrice a) = fixed2 (getPrice b)
  /\ getMinStockLevel a = getMinStockLevel b.

Definition same_catalog (m m' : inventory_t) : Prop :=
  Forall2 (fun e e' => fst e = fst e' /\ same_to_cents (snd e) (snd e')) m m'.

Definition initializeCategoryTree (s : WarehouseSystem) : WarehouseSystem :=
  set_categoryRoot (Node "Root" [] []) s.

(** The constructor, run against the content of the backing file and what
    is already on the console.  An exception of [loadFromFile] leaves no
    object. *)
Definition WarehouseSystem_new (disk : option string) (console : string)
    : result WarehouseSystem :=
  s <- loadFromFile
         (mkSystem [] 1 [] [] (Node EmptyString [] []) 1 disk console) ;;
  Ok (initializeCategoryTree s).

(** *** The catalog *)

Definition addTransaction (now : time_t) (action : string) (itemId : Z)
    (details : string) (s : WarehouseSystem) : WarehouseSystem :=
  set_transactionHistory
    (mkTransaction now action itemId details :: transactionHistory s) s.

Definition getItemsByCategory (category : string) (s : WarehouseSystem)
    : list InventoryItem :=
  filter (fun item => String.eqb (getCategory item) category)
         (map snd (inventory s)).

Definition addItem (now : time_t) (item : InventoryItem) (s : WarehouseSystem)
    : WarehouseSystem :=
  let s := set_inventory (map_assign (getId item) item (inventory s)) s in
  let s := set_nextId (wrap (getId item + 1)) s in
  let s := set_categoryRoot
             (findOrCreateCategory (getCategory item)
                                   (push_itemId (getId item)) (categoryRoot s)) s in
  let s := addTransaction now "Add" (getId item)
             ("Added " ++ getName item ++ " to category " ++ getCategory item) s in
  saveToFile s.

Definition removeItem (id : Z) (s : WarehouseSystem) : WarehouseSystem * bool :=
  match map_find id (inventory s) with
  | Some _ => (saveToFile (set_inventory (map_erase id (inventory s)) s), true)
  | None => (s, false)
  end.

Definition updateItem (item : InventoryItem) (s : WarehouseSystem)
    : WarehouseSystem * bool :=
  match map_find (getId item) (inventory s) with
  | Some _ =>
      (saveToFile
         (set_inventory (map_assign (getId item) item (inventory s)) s), true)
  | None => (s, false)
  end.

Definition findItem (id : Z) (s : WarehouseSystem) : option InventoryItem :=
  map_find id (inventory s).

Definition getAllItems (s : WarehouseSystem) : list InventoryItem :=
  map snd (inventory s).

Definition getNextId (s : WarehouseSystem) : Z := nextId s.

(** *** The sorted views *)

Definition name_less (a b : InventoryItem) : bool :=
  String.ltb (getName a) (getName b).

Definition quantity_less (a b : InventoryItem) : bool :=
  getQuantity a <? getQuantity b.

Definition print_all {A} (line : A -> string) (l : list A) (s : WarehouseSystem)
    : WarehouseSystem :=
  fold_left (fun s x => print (line x) s) l s.

(** The vector [items] of [sortByName] after [std::sort]. *)
Definition sortByName_items (s : WarehouseSystem) : list InventoryItem :=
  std_sort name_less (getAllItems s).

Definition sortByName_line (item : InventoryItem) : string :=
  "ID: " ++ to_string (getId item) ++ ", Name: " ++ getName item
  ++ ", Category: " ++ getCategory item
  ++ ", Quantity: " ++ to_string (getQuantity item) ++ newline.

Definition sortByName (s : WarehouseSystem) : WarehouseSystem :=
  print_all sortByName_line (sortByName_items s) s.

Definition sortByQuantity_items (s : WarehouseSystem) : list InventoryItem :=
  std_sort quantity_less (getAllItems s).

Definition sortByQuantity_line (item : InventoryItem) : string :=
  "ID: " ++ to_string (getId item) ++ ", Name: " ++ getName item
  ++ ", Quantity: " ++ to_string (getQuantity item) ++ newline.

Definition sortByQuantity (s : WarehouseSystem) : WarehouseSystem :=
  print_all sortByQuantity_line (sortByQuantity_items s) s.

(** *** Orders

    [createOrder] reads the clock twice: [orderTime] in the constructor of
    the order, then [now] in the constructor of the transaction. *)

Definition createOrder (orderTime now : time_t) (itemId quantity : Z)
    (s : WarehouseSystem) : WarehouseSystem :=
  match findItem itemId s with
  | Some _ =>
      if 0 <? quantity then
        let order := newOrder orderTime (nextOrderId s) itemId quantity in
        let s := set_nextOrderId (wrap (nextOrderId s + 1)) s in
        let s := set_orderQueue (orderQueue s ++ [order])%list s in
        let s := addTransaction now "Order Created" itemId
                   ("Ordered " ++ to_string quantity ++ " units") s in
        print ("Order created successfully!" ++ newline) s
      else print ("Invalid item ID or quantity!" ++ newline) s
  | None => print ("Invalid item ID or quantity!" ++ newline) s
  end.

Definition processNextOrder (now : time_t) (s : WarehouseSystem)
    : WarehouseSystem :=
  match orderQueue s with
  | [] => print ("No orders to process!" ++ newline) s
  | order :: rest =>
      let s := set_orderQueue rest s in
      match findItem (getItemId order) s with
      | Some item =>
          if getOrderQuantity order <=? getQuantity item then
            let s := set_inventory
                       (map_modify (getItemId order)
                          (setQuantity
                             (wrap (getQuantity item - getOrderQuantity order)))
                          (inventory s)) s in
            let s := addTransaction now "Order Processed" (getItemId order)
                       ("Processed order #" ++ to_string (getOrderId order)
                        ++ " for " ++ to_string (getOrderQuantity order)
                        ++ " units") s in
            let s := print ("Order #" ++ to_string (getOrderId order)
                            ++ " processed successfully!" ++ newline) s in
            saveToFile s
          else
            let s := print ("Insufficient stock for order #"
                            ++ to_string (getOrderId order) ++ "!" ++ newline) s in
            set_orderQueue (orderQueue s ++ [order])%list s
      | None => s
      end
  end.

Definition displayOrderQueue_entry (s : WarehouseSystem) (order : Order) : string :=
  "Order #" ++ to_string (getOrderId order) ++ ":" ++ newline
  ++ "  Item: "
  ++ match map_find (getItemId order) (inventory s) with
     | Some item => getName item
     | None => "Unknown"
     end
  ++ " (ID: " ++ to_string (getItemId order) ++ ")" ++ newline
  ++ "  Quantity: " ++ to_string (getOrderQuantity order) ++ newline
  ++ "  Status: " ++ getStatus order ++ newline ++ newline.

Definition displayOrderQueue (s : WarehouseSystem) : WarehouseSystem :=
  match orderQueue s with
  | [] => print ("No pending orders." ++ newline) s
  | q =>
      let s1 := print (newline ++ "Pending Orders:" ++ newline) s in
      let s1 := print (string_of_list_ascii (repeat "-"%char 50) ++ newline) s1 in
      print_all (displayOrderQueue_entry s) q s1
  end.

(** *** Runs of the engine

    The calls a client can make on the object, each with the clock value
    the call reads, if any. *)

Inductive Op :=
| OpAddItem (now : time_t) (item : InventoryItem)
| OpRemoveItem (id : Z)
| OpUpdateItem (item : InventoryItem)
| OpSortByName
| OpSortByQuantity
| OpCreateOrder (orderTime now : time_t) (itemId quantity : Z)
| OpProcessNextOrder (now : time_t)
| OpDisplayOrderQueue.

Definition step (s : WarehouseSystem) (op : Op) : WarehouseSystem :=
  match op with
  | OpAddItem now item => addItem now item s
  | OpRemoveItem id => fst (removeItem id s)
  | OpUpdateItem item => fst (updateItem item s)
  | OpSortByName => sortByName s
  | OpSortByQuantity => sortByQuantity s
  | OpCreateOrder orderTime now itemId quantity =>
      createOrder orderTime now itemId quantity s
  | OpProcessNextOrder now => processNextOrder now s
  | OpDisplayOrderQueue => displayOrderQueue s
  end.

Definition run (ops : list Op) (s : WarehouseSystem) : WarehouseSystem :=
  fold_left step ops s.

(** The arguments of a call are values of type [int]. *)
Definition item_ints (item : InventoryItem) : Prop :=
  in_int (getId item) /\ in_int (getQuantity item)
  /\ in_int (getMinStockLevel item).

Definition op_ints (op : Op) : Prop :=
  match op with
  | OpAddItem _ item | OpUpdateItem item => item_ints item
  | OpRemoveItem id => in_int id
  | OpCreateOrder _ _ itemId quantity => in_int itemId /\ in_int quantity
  | _ => True
  end.

(** The states of an object: built by the constructor, then changed by
    calls only. *)
Inductive reachable : WarehouseSystem -> Prop :=
| reachable_new disk console s :
    WarehouseSystem_new disk console = Ok s -> reachable s
| reachable_step s op :
    reachable s -> op_ints op -> reachable (step s op).

End Engine.

(** ** The rest of the class and its caller *)

Definition children (n : CategoryNode) : list CategoryNode :=
  match n with Node _ cs _ => cs end.

Definition itemIds (n : CategoryNode) : list Z :=
  match n with Node _ _ ids => ids end.

(** The node a path designates, read without creating anything.  The
    class has no such method; it is what [findOrCreateCategory] returns
    when every segment exists. *)
Fixpoint findCategory (path : list string) (n : CategoryNode)
    : option CategoryNode :=
  match path with
  | [] => Some n
  | seg :: rest =>
      match find (fun c => String.eqb (nodeName c) seg) (children n) with
      | Some c => findCategory rest c
      | None => None
      end
  end.

Section Displays.

Context {R : Runtime}.

Definition lowStock_line (item : InventoryItem) : string :=
  "ID: " ++ to_string (getId item) ++ ", Name: " ++ getName item
  ++ ", Current Stock: " ++ to_string (getQuantity item)
  ++ ", Min Stock: " ++ to_string (getMinStockLevel item) ++ newline.

(** The loop of [displayLowStockItems] carries the console and [found]. *)
Definition lowStock_visit (acc : WarehouseSystem * bool) (item : InventoryItem)
    : WarehouseSystem * bool :=
  let '(s, found) := acc in
  if isLowStock item then
    let s := if found : bool then s
             else print ("Low Stock Items:" ++ newline) s in
    (print (lowStock_line item) s, true)
  else (s, found).

Definition displayLowStockItems (s : WarehouseSystem) : WarehouseSystem :=
  let '(s', found) := fold_left lowStock_visit (getAllItems s) (s, false) in
  if found : bool then s'
  else print ("No items are low on stock." ++ newline) s'.

(** [Transaction::toString]; [ctime_s] is the text the C runtime gives for
    a time, which ends with a line feed. *)
Variable ctime_s : time_t -> string.

Definition getFormattedTime (t : Transaction) : string :=
  let time := ctime_s (timestamp t) in
  substring 0 (String.length time - 1) time.

Definition toString (t : Transaction) : string :=
  getFormattedTime t ++ " - " ++ action t ++ " (Item ID: "
  ++ to_string (txItemId t) ++ ") " ++ details t.

(** The loop of [displayTransactionHistory] on the copy of the stack. *)
Fixpoint history_loop (tempStack : list Transaction) (count limit : Z)
    (s : WarehouseSystem) : WarehouseSystem :=
  match tempStack with
  | [] => s
  | top :: tempStack' =>
      if count <? limit then
        history_loop tempStack' (wrap (count + 1)) limit
                     (print (toString top ++ newline) s)
      else s
  end.

Definition displayTransactionHistory (limit : Z) (s : WarehouseSystem)
    : WarehouseSystem :=
  let s := print (newline ++ "Recent Transaction History:" ++ newline) s in
  let s := print (string_of_list_ascii (repeat "-"%char 50) ++ newline) s in
  history_loop (transactionHistory s) 0 limit s.

(** *** The menu

    [inputItemDetails] with the values it reads from [std::cin], all read
    successfully: a new item takes its id from [getNextId]. *)
Definition inputItemDetails (isNew : bool) (typedId : Z) (name category : string)
    (quantity : Z) (price : float) (minStockLevel : Z) (s : WarehouseSystem)
    : InventoryItem * WarehouseSystem :=
  let id := if isNew then getNextId s else 0 in
  let '(id, s) := if isNew then (id, s)
                  else (typedId, print "Enter item ID: " s) in
  let s := print "Enter item name: " s in
  let s := print "Enter category: " s in
  let s := print "Enter quantity: " s in
  let s := print "Enter price: " s in
  let s := print "Enter minimum stock level: " s in
  (mkItem id name category quantity price minStockLevel, s).

(** The cases of the [switch] of [main] that call the engine without
    printing a price, with what the user typed. *)
Inductive Choice :=
| AddNewItem (now : time_t) (name category : string) (quantity : Z)
             (price : float) (minStockLevel : Z)
| RemoveItem (id : Z)
| UpdateItem (id : Z) (name category : string) (quantity : Z)
             (price : float) (minStockLevel : Z)
| LowStockItems
| SortByName
| SortByQuantity
| CreateOrder (orderTime now : time_t) (itemId quantity : Z)
| ProcessNextOrder (now : time_t)
| DisplayOrderQueue.

Definition main_case (s : WarehouseSystem) (choice : Choice) : WarehouseSystem :=
  match choice with
  | AddNewItem now name category quantity price minStockLevel =>
      let '(item, s) :=
        inputItemDetails true 0 name category quantity price minStockLevel s in
      print ("Item added successfully!" ++ newline) (addItem now item s)
  | RemoveItem id =>
      let s := print "Enter item ID to remove: " s in
      let '(s, removed) := removeItem id s in
      if removed : bool then print ("Item removed successfully!" ++ newline) s
      else print ("Item not found!" ++ newline) s
  | UpdateItem id name category quantity price minStockLevel =>
      let '(item, s) :=
        inputItemDetails false id name category quantity price minStockLevel s in
      let '(s, updated) := updateItem item s in
      if updated : bool then print ("Item updated successfully!" ++ newline) s
      else print ("Item not found!" ++ newline) s
  | LowStockItems => displayLowStockItems s
  | SortByName => sortByName s
  | SortByQuantity => sortByQuantity s
  | CreateOrder orderTime now itemId quantity =>
      let s := print "Enter item ID: " s in
      let s := print "Enter quantity: " s in
      createOrder orderTime now itemId quantity s
  | ProcessNextOrder now => processNextOrder now s
  | DisplayOrderQueue => displayOrderQueue s
  end.

Definition main_loop (choices : list Choice) (s : WarehouseSystem)
    : WarehouseSystem :=
  fold_left main_case choices s.

End Displays.

(** *** Predicates on states *)

(** Every id of the catalog is below [nextId]. *)
Definition ids_below (s : WarehouseSystem) : Prop :=
  Forall (fun e => fst e < nextId s) (inventory s).



(** The same ids, each with the same record, the prices up to their
    two-decimal text. *)
Definition same_tuples {R : Runtime} (m m' : inventory_t) : Prop :=
  forall id,
    match map_find id m, map_find id m' with
    | Some a, Some b => same_to_cents a b
    | None, None => True
    | _, _ => False
    end.

(** The item of an order is in the catalog with too little stock. *)
Definition starved (m : inventory_t) (o : Order) : Prop :=
  exists item,
    map_find (getItemId o) m = Some item
    /\ getQuantity item < getOrderQuantity o.

(** ** A runtime to run the engine on

    [insertion_sort] is a stable sort.  [fixed2_exact] rounds the exact
    value of a double to hundredths, ties to even; [stod_decimal] reads a
    plain decimal numeral of at most 15 significant digits, which one
    correctly rounded division converts. *)

Fixpoint insert_sorted {A} (comp : A -> A -> bool) (x : A) (l : list A) : list A :=
  match l with
  | [] => [x]
  | y :: l' => if comp y x then y :: insert_sorted comp x l' else x :: l
  end.

Definition insertion_sort {A} (comp : A -> A -> bool) (l : list A) : list A :=
  fold_right (insert_sorted comp) [] l.

Definition round_half_even (n d : Z) : Z :=
  let q := n / d in
  let r := n mod d in
  if 2 * r <? d then q
  else if d <? 2 * r then q + 1
  else if Z.even q then q else q + 1.

Definition hundredths (m : positive) (e : Z) : Z :=
  if 0 <=? e then Z.pos m * 2 ^ e * 100
  else round_half_even (Z.pos m * 100) (2 ^ (- e)).

Definition two_digits (n : Z) : string :=
  if n <? 10 then "0" ++ to_string n else to_string n.

Definition sign_text (negative : bool) : string :=
  if negative then "-" else "".

Definition fixed2_exact (x : float) : string :=
  match FloatOps.Prim2SF x with
  | SpecFloat.S754_zero sg => sign_text sg ++ "0.00"
  | SpecFloat.S754_infinity sg => sign_text sg ++ "inf"
  | SpecFloat.S754_nan => "nan"
  | SpecFloat.S754_finite sg m e =>
      let c := hundredths m e in
      sign_text sg ++ to_string (c / 100) ++ "." ++ two_digits (c mod 100)
  end.

Fixpoint drop_digits (s : string) : string :=
  match s with
  | String c s' =>
      match digit_of c with
      | Some _ => drop_digits s'
      | None => s
      end
  | EmptyString => EmptyString
  end.

Definition float_of_Z (n : Z) : float := PrimFloat.of_uint63 (Uint63.of_Z n).

Definition stod_decimal (s : string) : result float :=
  let s1 := skip_space s in
  let '(neg, s2) :=
    match s1 with
    | String "-"%char r => (true, r)
    | String "+"%char r => (false, r)
    | _ => (false, s1)
    end in
  let int_part := read_digits s2 in
  let frac_part :=
    match drop_digits s2 with
    | String "."%char r => read_digits r
    | _ => Decimal.Nil
    end in
  match Decimal.app int_part frac_part with
  | Decimal.Nil => Throw invalid_argument
  | ds =>
      let n := Z.of_uint ds in
      if n <? 10 ^ 15 then
        let x := PrimFloat.div (float_of_Z n)
                   (float_of_Z (10 ^ Z.of_nat (Decimal.nb_digits frac_part))) in
        Ok (if neg : bool then PrimFloat.opp x else x)
      else Throw out_of_range
  end.

#[local] Instance decimal_runtime : Runtime := {
  fixed2 := fixed2_exact;
  stod := stod_decimal;
  std_sort := insertion_sort
}.

(** [std::sort] asks for a comparator that is a strict weak ordering, and
    promises a rearrangement of the range in which no element is less than
    one before it.  It promises nothing on the order of equivalent
    elements. *)

Definition strict_weak_order {A} (comp : A -> A -> bool) : Prop :=
  (forall a, comp a a = false)
  /\ (forall a b c, comp a b = true -> comp b c = true -> comp a c = true)
  /\ (forall a b c,
        comp a b = false -> comp b a = false ->
        comp b c = false -> comp c b = false ->
        comp a c = false /\ comp c a = false).

Definition std_sort_contract (R : Runtime) : Prop :=
  forall comp items,
    strict_weak_order comp ->
    Permutation items (std_sort comp items)
    /\ StronglySorted (fun a b => comp b a = false) (std_sort comp items).

(** The text a printing loop sends to the console. *)
Definition text_of {A} (line : A -> string) (l : list A) : string :=
  fold_right (fun x rest => line x ++ rest) "" l.

(** Ascending quantity, and ascending id among equal quantities. *)
Definition by_quantity_then_id (a b : InventoryItem) : Prop :=
  getQuantity a < getQuantity b
  \/ (getQuantity a = getQuantity b /\ getId a < getId b).

(** *** [std::sort] of the GNU C++ library

    The functions of [bits/stl_algo.h] and [bits/stl_heap.h] behind
    [std::sort], on a vector kept as a list and read through indices:
    quicksort on the median of three while a range is longer than 16,
    heap sort when the recursion budget of twice the logarithm of the
    length is used up, and one closing insertion sort.  [d] stands for an
    element read outside the vector, which the library never does; the
    loops carry the length of the vector as their bound. *)

Module GnuSort.

#[local] Open Scope nat_scope.

Section Sort.

Context {A : Type} (comp : A -> A -> bool) (d : A).

Definition at_ (v : list A) (i : nat) : A := nth i v d.

Fixpoint put (v : list A) (i : nat) (x : A) : list A :=
  match v, i with
  | [], _ => []
  | _ :: v', O => x :: v'
  | y :: v', S i' => y :: put v' i' x
  end.

Definition iter_swap (v : list A) (i j : nat) : list A :=
  put (put v i (at_ v j)) j (at_ v i).

Definition move_median_to_first (v : list A) (result a b c : nat) : list A :=
  if comp (at_ v a) (at_ v b) then
    if comp (at_ v b) (at_ v c) then iter_swap v result b
    else if comp (at_ v a) (at_ v c) then iter_swap v result c
    else iter_swap v result a
  else if comp (at_ v a) (at_ v c) then iter_swap v result a
  else if comp (at_ v b) (at_ v c) then iter_swap v result c
  else iter_swap v result b.

Fixpoint scan_up (fuel : nat) (v : list A) (first pivot : nat) : nat :=
  match fuel with
  | O => first
  | S fuel' =>
      if comp (at_ v first) (at_ v pivot) then scan_up fuel' v (S first) pivot
      else first
  end.

Fixpoint scan_down (fuel : nat) (v : list A) (last pivot : nat) : nat :=
  match fuel with
  | O => last
  | S fuel' =>
      if comp (at_ v pivot) (at_ v last) then scan_down fuel' v (last - 1) pivot
      else last
  end.

Fixpoint unguarded_partition (fuel : nat) (v : list A) (first last pivot : nat)
    : list A * nat :=
  match fuel with
  | O => (v, first)
  | S fuel' =>
      let first := scan_up (List.length v) v first pivot in
      let last := scan_down (List.length v) v (last - 1) pivot in
      if first <? last
      then unguarded_partition fuel' (iter_swap v first last) (S first) last pivot
      else (v, first)
  end.

Definition unguarded_partition_pivot (v : list A) (first last : nat)
    : list A * nat :=
  let mid := first + (last - first) / 2 in
  let v := move_median_to_first v first (first + 1) mid (last - 1) in
  unguarded_partition (List.length v) v (first + 1) last first.

Fixpoint push_heap (fuel : nat) (v : list A) (first hole top : nat) (value : A)
    : list A :=
  match fuel with
  | O => put v (first + hole) value
  | S fuel' =>
      let parent := (hole - 1) / 2 in
      if (top <? hole) && comp (at_ v (first + parent)) value
      then push_heap fuel' (put v (first + hole) (at_ v (first + parent)))
                     first parent top value
      else put v (first + hole) value
  end.

Fixpoint adjust_loop (fuel : nat) (v : list A) (first hole len : nat)
    : list A * nat :=
  match fuel with
  | O => (v, hole)
  | S fuel' =>
      if hole <? (len - 1) / 2 then
        let second := 2 * (hole + 1) in
        let second :=
          if comp (at_ v (first + second)) (at_ v (first + (second - 1)))
          then second - 1 else second in
        adjust_loop fuel' (put v (first + hole) (at_ v (first + second)))
                    first second len
      else (v, hole)
  end.

Definition adjust_heap (v : list A) (first hole len : nat) (value : A)
    : list A :=
  let top := hole in
  let '(v, hole) := adjust_loop (List.length v) v first hole len in
  let '(v, hole) :=
    if Nat.even len && (hole =? (len - 2) / 2) then
      let second := 2 * (hole + 1) in
      (put v (first + hole) (at_ v (first + (second - 1))), second - 1)
    else (v, hole) in
  push_heap (List.length v) v first hole top value.

Fixpoint make_heap_from (v : list A) (first len parent : nat) : list A :=
  let v := adjust_heap v first parent len (at_ v (first + parent)) in
  match parent with
  | O => v
  | S parent' => make_heap_from v first len parent'
  end.

Definition make_heap (v : list A) (first last : nat) : list A :=
  let len := last - first in
  if len <? 2 then v else make_heap_from v first len ((len - 2) / 2).

Definition pop_heap (v : list A) (first last result : nat) : list A :=
  let value := at_ v result in
  adjust_heap (put v result (at_ v first)) first 0 (last - first) value.

Fixpoint sort_heap (fuel : nat) (v : list A) (first last : nat) : list A :=
  match fuel with
  | O => v
  | S fuel' =>
      if 1 <? last - first
      then sort_heap fuel' (pop_heap v first (last - 1) (last - 1))
                     first (last - 1)
      else v
  end.

Fixpoint heap_select_loop (fuel : nat) (v : list A) (first middle i last : nat)
    : list A :=
  match fuel with
  | O => v
  | S fuel' =>
      if i <? last then
        let v := if comp (at_ v i) (at_ v first)
                 then pop_heap v first middle i else v in
        heap_select_loop fuel' v first middle (S i) last
      else v
  end.

Definition partial_sort (v : list A) (first middle last : nat) : list A :=
  let v := make_heap v first middle in
  let v := heap_select_loop (List.length v) v first middle middle last in
  sort_heap (List.length v) v first middle.

Definition threshold : nat := 16.

Fixpoint introsort_loop (fuel : nat) (v : list A) (first last depth_limit : nat)
    : list A :=
  match fuel with
  | O => v
  | S fuel' =>
      if threshold <? last - first then
        match depth_limit with
        | O => partial_sort v first last last
        | S depth_limit' =>
            let '(v, cut) := unguarded_partition_pivot v first last in
            let v := introsort_loop fuel' v cut last depth_limit' in
            introsort_loop fuel' v first cut depth_limit'
        end
      else v
  end.

Fixpoint unguarded_linear_insert (fuel : nat) (v : list A) (last : nat) (val : A)
    : list A :=
  match fuel with
  | O => put v last val
  | S fuel' =>
      if comp val (at_ v (last - 1))
      then unguarded_linear_insert fuel' (put v last (at_ v (last - 1)))
                                   (last - 1) val
      else put v last val
  end.

Fixpoint move_backward (n : nat) (v : list A) (i : nat) : list A :=
  match n with
  | O => v
  | S n' => move_backward n' (put v i (at_ v (i - 1))) (i - 1)
  end.

Fixpoint insertion_loop (fuel : nat) (v : list A) (first i last : nat) : list A :=
  match fuel with
  | O => v
  | S fuel' =>
      if i <? last then
        let v :=
          if comp (at_ v i) (at_ v first)
          then put (move_backward (i - first) v i) first (at_ v i)
          else unguarded_linear_insert (List.length v) v i (at_ v i) in
        insertion_loop fuel' v first (S i) last
      else v
  end.

Definition insertion_sort (v : list A) (first last : nat) : list A :=
  if first =? last then v
  else insertion_loop (List.length v) v first (S first) last.

Fixpoint unguarded_insertion_sort (fuel : nat) (v : list A) (i last : nat)
    : list A :=
  match fuel with
  | O => v
  | S fuel' =>
      if i <? last
      then unguarded_insertion_sort fuel'
             (unguarded_linear_insert (List.length v) v i (at_ v i)) (S i) last
      else v
  end.

Definition final_insertion_sort (v : list A) (first last : nat) : list A :=
  if threshold <? last - first then
    unguarded_insertion_sort (List.length v)
      (insertion_sort v first (first + threshold)) (first + threshold) last
  else insertion_sort v first last.

End Sort.

Definition sort {A : Type} (comp : A -> A -> bool) (v : list A) : list A :=
  match v with
  | [] => []
  | d :: _ =>
      let n := List.length v in
      final_insertion_sort comp d
        (introsort_loop comp d n v 0 n (2 * Nat.log2 n)) 0 n
  end.

End GnuSort.

(** The runtime of a program built with the GNU C++ library. *)
Definition gnu_runtime : Runtime := {|
  fixed2 := fixed2_exact;
  stod := stod_decimal;
  std_sort := fun comp items => GnuSort.sort comp items
|}.

(** ** Sample data *)

Definition widget : InventoryItem := mkItem 5 "Widget" "Tools" 10 2.5%float 3.
Definition bolt : InventoryItem := mkItem 2 "Bolt" "Tools/Small" 2 0.25%float 1.
Definition nut : InventoryItem := mkItem 3 "Nut" "Tools/Small" 2 0.125%float 1.
Definition anvil : InventoryItem := mkItem 1 "Anvil" "Tools" 50 199.99%float 5.
Definition nuts_and_bolts : InventoryItem :=
  mkItem 1 "Nuts, bolts" "Tools" 5 1.5%float 2.

(** Twenty items of quantity 1, added with ids 1 to 20. *)
Definition twenty_parts : list Op :=
  map (fun id => OpAddItem (100 + id) (mkItem id "Part" "Parts" 1 0.5%float 0))
      [1; 2; 3; 4; 5; 6; 7; 8; 9; 10; 11; 12; 13; 14; 15; 16; 17; 18; 19; 20].

(** The object the constructor builds when the backing file is absent. *)
Definition fresh_system : WarehouseSystem :=
  mkSystem [] 1 [] [] (Node "Root" [] []) 1 None "".

(** * Properties *)

Example to_string_examples :
  to_string 0 = "0" /\ to_string 42 = "42" /\ to_string (-7) = "-7".
Proof. repeat split. Qed.

Example stoi_examples :
  stoi "12" = Ok 12 /\ stoi " -3x" = Ok (-3) /\ stoi "cat" = Throw invalid_argument
  /\ stoi "" = Throw invalid_argument /\ stoi "2147483648" = Throw out_of_range
  /\ stoi "-2147483648" = Ok (-2147483648).
Proof. repeat split. Qed.

Example getline_loop_examples :
  getline_loop "/" "Electronics/Phones" = ["Electronics"; "Phones"]
  /\ getline_loop "/" "a/" = ["a"] /\ getline_loop "/" "" = []
  /\ getline_loop "/" "/a//b" = [""; "a"; ""; "b"].
Proof. repeat split. Qed.

Example fixed2_examples :
  fixed2_exact 19.99%float = "19.99" /\ fixed2_exact 0.125%float = "0.12"
  /\ fixed2_exact (-3)%float = "-3.00" /\ fixed2_exact 1.005%float = "1.00"
  /\ fixed2_exact 1234567.891%float = "1234567.89".
Proof. vm_compute. repeat split. Qed.

Example gnu_sort_examples :
  GnuSort.sort Z.ltb [5; 3; 9; 1; 4; 8; 2; 7; 6; 0; 15; 13; 19; 11; 14; 18; 12;
                      17; 16; 10]
  = [0; 1; 2; 3; 4; 5; 6; 7; 8; 9; 10; 11; 12; 13; 14; 15; 16; 17; 18; 19]
  /\ GnuSort.partial_sort Z.ltb 0 [9; 1; 4; 8; 2; 7; 6; 0; 5; 3] 0%nat 10%nat
        10%nat
     = [0; 1; 2; 3; 4; 5; 6; 7; 8; 9]
  /\ GnuSort.sort (fun a b : Z * Z => fst a <? fst b)
        [(3, 1); (1, 2); (3, 3); (2, 4); (1, 5); (2, 6)]
     = [(1, 2); (1, 5); (2, 4); (2, 6); (3, 1); (3, 3)].
Proof. vm_compute. repeat split. Qed.

Example stod_examples :
  stod_decimal "19.99" = Ok 19.99%float /\ stod_decimal "-3.00" = Ok (-3)%float
  /\ stod_decimal "x" = Throw invalid_argument.
Proof. vm_compute. repeat split. Qed.

(** ** [processNextOrder] *)

(** C3. When the front order names an item of the catalog whose quantity is
    below the ordered quantity, [processNextOrder] prints the insufficient
    stock message, leaves the catalog (so the item's quantity) as it was,
    puts the same order, status included, at the back of the queue, whose
    length is unchanged, and records no transaction. *)
Theorem processNextOrder_insufficient_stock :
  forall (R : Runtime) (now : time_t) (s : WarehouseSystem)
         (order : Order) (rest : list Order) (item : InventoryItem),
    orderQueue s = order :: rest ->
    findItem (getItemId order) s = Some item ->
    getQuantity item < getOrderQuantity order ->
    let s' := processNextOrder now s in
    cout s' = cout s ++ "Insufficient stock for order #"
                     ++ to_string (getOrderId order) ++ "!" ++ newline
    /\ inventory s' = inventory s
    /\ findItem (getItemId order) s' = Some item
    /\ orderQueue s' = (rest ++ [order])%list
    /\ List.length (orderQueue s') = List.length (orderQueue s)
    /\ transactionHistory s' = transactionHistory s
    /\ file s' = file s.
Proof.
  intros R now s order rest item Hq Hfind Hlt s'.
  subst s'. unfold processNextOrder, findItem in *. rewrite Hq. simpl.
  rewrite Hfind.
  destruct (Z.leb_spec (getOrderQuantity order) (getQuantity item)) as [Hle|_];
    [lia|].
  simpl. rewrite Hfind, length_app. simpl.
  repeat split; try reflexivity. lia.
Qed.

Lemma processNextOrder_insufficient_stock_witness :
  let s := run [OpAddItem 100 bolt; OpCreateOrder 101 101 2 5] fresh_system in
  orderQueue (processNextOrder 102 s) = [newOrder 101 1 2 5]
  /\ findItem 2 (processNextOrder 102 s) = Some bolt.
Proof.
  intro s.
  destruct (processNextOrder_insufficient_stock decimal_runtime 102 s
              (newOrder 101 1 2 5) [] bolt)
    as (_ & _ & Hitem & Hqueue & _); [reflexivity | reflexivity | simpl; lia |].
  split; [exact Hqueue | exact Hitem].
Defined.

(** C6. When the front order names an id that is not in the catalog,
    [processNextOrder] only removes that order: the queue is its tail, and
    the catalog, the transaction history, the console and the file are as
    before. *)
Theorem processNextOrder_drops_orphan :
  forall (R : Runtime) (now : time_t) (s : WarehouseSystem)
         (order : Order) (rest : list Order),
    orderQueue s = order :: rest ->
    findItem (getItemId order) s = None ->
    let s' := processNextOrder now s in
    s' = set_orderQueue rest s
    /\ orderQueue s' = rest
    /\ S (List.length (orderQueue s')) = List.length (orderQueue s)
    /\ transactionHistory s' = transactionHistory s
    /\ cout s' = cout s
    /\ inventory s' = inventory s
    /\ file s' = file s.
Proof.
  intros R now s order rest Hq Hfind s'.
  subst s'. unfold processNextOrder, findItem in *. rewrite Hq. simpl.
  rewrite Hfind. repeat split.
Qed.

Lemma processNextOrder_drops_orphan_witness :
  let s := run [OpAddItem 100 bolt; OpCreateOrder 101 101 2 5; OpRemoveItem 2]
               fresh_system in
  processNextOrder 102 s = set_orderQueue [] s.
Proof.
  intro s.
  assert (Hq : orderQueue s = [newOrder 101 1 2 5])
    by (vm_compute; reflexivity).
  assert (Hf : findItem (getItemId (newOrder 101 1 2 5)) s = None)
    by (vm_compute; reflexivity).
  pose proof (processNextOrder_drops_orphan decimal_runtime 102 s
                (newOrder 101 1 2 5) [] Hq Hf) as H.
  cbv zeta in H. destruct H as [H _]. exact H.
Defined.

(** ** Strings *)

Lemma append_cancel_l (p a b : string) : p ++ a = p ++ b -> a = b.
Proof.
  induction p as [|c p IH]; simpl; [auto|]. intros [= H]. auto.
Qed.

Lemma append_assoc (a b c : string) : (a ++ b) ++ c = a ++ b ++ c.
Proof.
  induction a as [|x a IH]; simpl; [reflexivity | now rewrite IH].
Qed.

Lemma append_empty_r (a : string) : a ++ "" = a.
Proof.
  induction a as [|x a IH]; simpl; [reflexivity | now rewrite IH].
Qed.

(** ** The map operations *)

Lemma map_find_assign_same (k : Z) (v : InventoryItem) (m : inventory_t) :
  map_find k (map_assign k v m) = Some v.
Proof.
  induction m as [|[k' v'] m IH]; simpl.
  - now rewrite Z.eqb_refl.
  - destruct (Z.ltb_spec k k').
    + simpl. now rewrite Z.eqb_refl.
    + destruct (Z.eqb_spec k k'); simpl.
      * now rewrite Z.eqb_refl.
      * destruct (Z.eqb_spec k' k); [congruence | exact IH].
Qed.

Lemma map_find_assign_other (k k0 : Z) (v : InventoryItem) (m : inventory_t) :
  k0 <> k -> map_find k0 (map_assign k v m) = map_find k0 m.
Proof.
  intros Hne. induction m as [|[k' v'] m IH]; simpl.
  - destruct (Z.eqb_spec k k0); [congruence | reflexivity].
  - destruct (Z.ltb_spec k k').
    + simpl. destruct (Z.eqb_spec k k0); [congruence | reflexivity].
    + destruct (Z.eqb_spec k k'); simpl.
      * subst k'. destruct (Z.eqb_spec k k0); [congruence | reflexivity].
      * now rewrite IH.
Qed.

Lemma map_find_modify_same (k : Z) (f : InventoryItem -> InventoryItem)
    (m : inventory_t) (v : InventoryItem) :
  map_find k m = Some v -> map_find k (map_modify k f m) = Some (f v).
Proof.
  induction m as [|[k' v'] m IH]; simpl; [discriminate|].
  destruct (Z.eqb_spec k' k); simpl.
  - destruct (Z.eqb_spec k' k); [|congruence]. now intros [= ->].
  - destruct (Z.eqb_spec k' k); [congruence | exact IH].
Qed.

Lemma map_find_modify_other (k k0 : Z) (f : InventoryItem -> InventoryItem)
    (m : inventory_t) :
  k0 <> k -> map_find k0 (map_modify k f m) = map_find k0 m.
Proof.
  intros Hne. induction m as [|[k' v'] m IH]; simpl; [reflexivity|].
  destruct (Z.eqb_spec k' k); simpl.
  - subst k'. destruct (Z.eqb_spec k k0); [congruence | reflexivity].
  - now rewrite IH.
Qed.

Lemma map_modify_keys (k : Z) (f : InventoryItem -> InventoryItem)
    (m : inventory_t) :
  map fst (map_modify k f m) = map fst m.
Proof.
  induction m as [|[k' v'] m IH]; simpl; [reflexivity|].
  destruct (k' =? k); simpl; [reflexivity | now rewrite IH].
Qed.

Definition keys_sorted (m : inventory_t) : Prop :=
  StronglySorted Z.lt (map fst m).

Lemma Forall_keys_assign (P : Z -> Prop) (k : Z) (v : InventoryItem)
    (m : inventory_t) :
  P k -> Forall P (map fst m) -> Forall P (map fst (map_assign k v m)).
Proof.
  intros Hk. induction m as [|[k' v'] m IH]; simpl; intros Hm.
  - constructor; [exact Hk | constructor].
  - inversion Hm as [|? ? Hk' Hm']; subst.
    destruct (k <? k'); [|destruct (k =? k')]; simpl;
      repeat constructor; auto.
Qed.

Lemma keys_sorted_assign (k : Z) (v : InventoryItem) (m : inventory_t) :
  keys_sorted m -> keys_sorted (map_assign k v m).
Proof.
  unfold keys_sorted. induction m as [|[k' v'] m IH]; simpl; intros Hs.
  - repeat constructor.
  - inversion Hs as [|? ? Hs' Hall]; subst.
    destruct (Z.ltb_spec k k') as [Hlt|Hge].
    + simpl. constructor; [exact Hs|].
      constructor; [exact Hlt|].
      eapply Forall_impl; [|exact Hall]. simpl. intros; lia.
    + destruct (Z.eqb_spec k k') as [->|Hne]; simpl.
      * now constructor.
      * constructor; [now apply IH|].
        apply Forall_keys_assign; [lia | exact Hall].
Qed.

(** On a sorted map, assigning to a key that is present keeps the keys. *)
Lemma map_assign_keys_present (k : Z) (v v0 : InventoryItem) (m : inventory_t) :
  keys_sorted m -> map_find k m = Some v0 ->
  map fst (map_assign k v m) = map fst m.
Proof.
  unfold keys_sorted. induction m as [|[k' v'] m IH]; simpl; intros Hs Hf.
  - discriminate.
  - inversion Hs as [|? ? Hs' Hall]; subst.
    destruct (Z.eqb_spec k' k) as [->|Hne].
    + rewrite Z.ltb_irrefl, Z.eqb_refl. reflexivity.
    + destruct (Z.ltb_spec k k') as [Hlt|Hge].
      * exfalso. clear IH Hs Hs'.
        induction m as [|[k2 v2] m IHm]; simpl in *; [discriminate|].
        inversion Hall; subst.
        destruct (Z.eqb_spec k2 k); [lia | auto].
      * destruct (Z.eqb_spec k k'); [congruence|]. simpl.
        now rewrite IH.
Qed.

Lemma Forall_map_erase {P : Z * InventoryItem -> Prop} (k : Z) (m : inventory_t) :
  Forall P m -> Forall P (map_erase k m).
Proof.
  induction m as [|[k' v'] m IH]; simpl; intros Hm; [constructor|].
  inversion Hm; subst. destruct (k' =? k); [assumption|].
  constructor; auto.
Qed.

Lemma keys_sorted_erase (k : Z) (m : inventory_t) :
  keys_sorted m -> keys_sorted (map_erase k m).
Proof.
  unfold keys_sorted. induction m as [|[k' v'] m IH]; simpl; intros Hs.
  - constructor.
  - inversion Hs as [|? ? Hs' Hall]; subst.
    destruct (k' =? k); [assumption|]. simpl. constructor; [auto|].
    rewrite Forall_map in *. now apply Forall_map_erase.
Qed.

Lemma Forall_map_assign {P : Z * InventoryItem -> Prop} (k : Z)
    (v : InventoryItem) (m : inventory_t) :
  P (k, v) -> Forall P m -> Forall P (map_assign k v m).
Proof.
  intros Hk. induction m as [|[k' v'] m IH]; simpl; intros Hm.
  - repeat constructor; assumption.
  - inversion Hm; subst.
    destruct (k <? k'); [|destruct (k =? k')]; repeat constructor; auto.
Qed.

Lemma Forall_map_modify {P : Z * InventoryItem -> Prop} (k : Z)
    (f : InventoryItem -> InventoryItem) (m : inventory_t) :
  (forall v, P (k, v) -> P (k, f v)) ->
  Forall P m -> Forall P (map_modify k f m).
Proof.
  intros Hf. induction m as [|[k' v'] m IH]; simpl; intros Hm; [constructor|].
  inversion Hm; subst.
  destruct (Z.eqb_spec k' k); [subst k'|]; constructor; auto.
Qed.

(** ** What holds of every state of an object *)

Lemma in_intb_in_int (z : Z) : in_intb z = true -> in_int z.
Proof.
  unfold in_intb, in_int. rewrite andb_true_iff, !Z.leb_le. tauto.
Qed.

Lemma stoi_in_int (s : string) (v : Z) : stoi s = Ok v -> in_int v.
Proof.
  unfold stoi.
  destruct (match skip_space s with
            | String "-"%char r => (true, r)
            | String "+"%char r => (false, r)
            | _ => (false, skip_space s)
            end) as [neg s2].
  destruct (read_digits s2) eqn:Hd; try discriminate;
    match goal with
    | |- context [in_intb ?x] =>
        destruct (in_intb x) eqn:Hin; [|discriminate];
        intros [= <-]; now apply in_intb_in_int
    end.
Qed.

Definition order_ok (o : Order) : Prop :=
  0 < getOrderQuantity o <= int_max /\ getStatus o = "Pending".

Definition entry_ok (e : Z * InventoryItem) : Prop :=
  fst e = getId (snd e) /\ item_ints (snd e).

Lemma map_find_entry_ok (k : Z) (m : inventory_t) (v : InventoryItem) :
  Forall entry_ok m -> map_find k m = Some v -> item_ints v.
Proof.
  induction m as [|[k' v'] m IH]; simpl; intros Hm Hf; [discriminate|].
  inversion Hm as [|? ? Hhd Htl]; subst.
  destruct (k' =? k); [|auto]. injection Hf as <-. apply Hhd.
Qed.

Record invariant (s : WarehouseSystem) : Prop := {
  inv_orders : Forall order_ok (orderQueue s);
  inv_entries : Forall entry_ok (inventory s);
  inv_sorted : keys_sorted (inventory s)
}.

Section Invariant.

Context {R : Runtime}.

Lemma print_all_fields {A} (line : A -> string) (l : list A) (s : WarehouseSystem) :
  inventory (print_all line l s) = inventory s
  /\ nextId (print_all line l s) = nextId s
  /\ transactionHistory (print_all line l s) = transactionHistory s
  /\ orderQueue (print_all line l s) = orderQueue s
  /\ categoryRoot (print_all line l s) = categoryRoot s
  /\ nextOrderId (print_all line l s) = nextOrderId s
  /\ file (print_all line l s) = file s.
Proof.
  unfold print_all. revert s.
  induction l as [|x l IH]; intros s; simpl; [repeat split|].
  destruct (IH (print (line x) s)) as (-> & -> & -> & -> & -> & -> & ->).
  repeat split.
Qed.

Lemma parse_line_ok (line : string) (item : InventoryItem) :
  parse_line line = Ok item -> item_ints item.
Proof.
  unfold parse_line.
  destruct (getline "," "" (mkStream line true)) as [t1 ss1].
  destruct (stoi t1) as [id|] eqn:Hid; simpl; [|discriminate].
  destruct (getline "," "" ss1) as [nm ss2].
  destruct (getline "," "" ss2) as [cat ss3].
  destruct (getline "," t1 ss3) as [t2 ss4].
  destruct (stoi t2) as [q|] eqn:Hq; simpl; [|discriminate].
  destruct (getline "," t2 ss4) as [t3 ss5].
  destruct (stod t3) as [pr|] eqn:Hp; simpl; [|discriminate].
  destruct (getline "," t3 ss5) as [t4 ss6].
  destruct (stoi t4) as [ms|] eqn:Hms; simpl; [|discriminate].
  intros [= <-]. unfold item_ints; simpl.
  repeat split; eapply stoi_in_int; eassumption.
Qed.

Lemma load_lines_ok (lines : list string) :
  forall m next m' next',
    load_lines lines m next = Ok (m', next') ->
    Forall entry_ok m -> keys_sorted m ->
    Forall entry_ok m' /\ keys_sorted m'.
Proof.
  induction lines as [|line lines IH]; simpl; intros m next m' next' H Hm Hs.
  - now inversion H; subst.
  - destruct (parse_line line) as [item|] eqn:Hp; simpl in H; [|discriminate].
    eapply IH; [exact H | |].
    + apply Forall_map_assign; [|exact Hm].
      split; [reflexivity | exact (parse_line_ok _ _ Hp)].
    + now apply keys_sorted_assign.
Qed.

Lemma new_invariant disk console s :
  WarehouseSystem_new disk console = Ok s -> invariant s.
Proof.
  unfold WarehouseSystem_new, loadFromFile. simpl.
  destruct disk as [text|]; simpl.
  - destruct (load_lines _ [] 1) as [[m next]|] eqn:Hl; simpl; [|discriminate].
    intros [= <-].
    destruct (load_lines_ok _ _ _ _ _ Hl) as [He Hs];
      [constructor | constructor |].
    constructor; simpl; [constructor | exact He | exact Hs].
  - intros [= <-]. constructor; simpl; constructor.
Qed.

Lemma step_invariant s op :
  invariant s -> op_ints op -> invariant (step s op).
Proof.
  intros [Ho He Hs] Hop. destruct op as [now item|id|item| | |otime now itemId q|now|];
    simpl in *.
  - constructor; simpl; [exact Ho | | now apply keys_sorted_assign].
    apply Forall_map_assign; [split; [reflexivity | exact Hop] | exact He].
  - unfold removeItem. destruct (map_find id (inventory s)); simpl.
    + constructor; simpl;
        [exact Ho | now apply Forall_map_erase | now apply keys_sorted_erase].
    + now constructor.
  - unfold updateItem. destruct (map_find (getId item) (inventory s)); simpl.
    + constructor; simpl; [exact Ho | | now apply keys_sorted_assign].
      apply Forall_map_assign; [split; [reflexivity | exact Hop] | exact He].
    + now constructor.
  - unfold sortByName.
    destruct (print_all_fields sortByName_line (sortByName_items s) s)
      as (Hi & _ & _ & Hq & _).
    constructor; rewrite ?Hi, ?Hq; assumption.
  - unfold sortByQuantity.
    destruct (print_all_fields sortByQuantity_line (sortByQuantity_items s) s)
      as (Hi & _ & _ & Hq & _).
    constructor; rewrite ?Hi, ?Hq; assumption.
  - unfold createOrder, findItem.
    destruct (map_find itemId (inventory s)); [|now constructor].
    destruct (Z.ltb_spec 0 q); [|now constructor].
    constructor; simpl; [|exact He | exact Hs].
    apply Forall_app. split; [exact Ho|].
    repeat constructor; simpl; [assumption | apply Hop].
  - unfold processNextOrder, findItem.
    destruct (orderQueue s) as [|order rest] eqn:Hq;
      [constructor; simpl; rewrite ?Hq; assumption|].
    simpl. inversion Ho as [|? ? Hord Hrest]; subst.
    destruct (map_find (getItemId order) (inventory s)) as [item|] eqn:Hf;
      [|now constructor].
    destruct (Z.leb_spec (getOrderQuantity order) (getQuantity item)).
    + constructor; simpl; [exact Hrest | |].
      * apply Forall_map_modify; [|exact He].
        intros v [Hk (Hi & Hqv & Hm)]. split; [exact Hk|].
        repeat split; simpl; try apply Hi; try apply Hm;
          destruct (map_find_entry_ok _ _ _ He Hf) as (_ & Hin & _);
          destruct Hord as [[? ?] _]; unfold wrap, in_int, int_min, int_max in *;
          rewrite Z.mod_small; lia.
      * unfold keys_sorted. now rewrite map_modify_keys.
    + constructor; simpl; [|exact He | exact Hs].
      apply Forall_app. split; [exact Hrest|].
      constructor; [exact Hord | constructor].
  - unfold displayOrderQueue.
    destruct (orderQueue s) as [|o q] eqn:Hq; [constructor; simpl; now rewrite ?Hq|].
    match goal with
    | |- invariant (print_all ?f ?l ?s0) =>
        destruct (print_all_fields f l s0) as (Hi & _ & _ & Hq' & _)
    end.
    constructor; rewrite ?Hi, ?Hq'; simpl; rewrite ?Hq; assumption.
Qed.

Lemma reachable_invariant s : reachable s -> invariant s.
Proof.
  induction 1 as [disk console s Hnew | s op _ IH Hop].
  - exact (new_invariant _ _ _ Hnew).
  - now apply step_invariant.
Qed.

End Invariant.

(** ** The read-side operations change the console only *)

Definition same_members (s s' : WarehouseSystem) : Prop :=
  inventory s' = inventory s
  /\ nextId s' = nextId s
  /\ transactionHistory s' = transactionHistory s
  /\ orderQueue s' = orderQueue s
  /\ categoryRoot s' = categoryRoot s
  /\ nextOrderId s' = nextOrderId s
  /\ file s' = file s.

Section Views.

Context {R : Runtime}.

Lemma sortByName_same s : same_members s (sortByName s).
Proof. apply print_all_fields. Qed.

Lemma sortByQuantity_same s : same_members s (sortByQuantity s).
Proof. apply print_all_fields. Qed.

Lemma displayOrderQueue_same s : same_members s (displayOrderQueue s).
Proof.
  unfold displayOrderQueue. destruct (orderQueue s) eqn:Hq.
  - repeat split.
  - unfold same_members.
    match goal with
    | |- context [print_all ?f ?l ?s0] =>
        destruct (print_all_fields f l s0) as (-> & -> & -> & -> & -> & -> & ->)
    end.
    repeat split.
Qed.

Lemma reachable_run s ops :
  reachable s -> Forall op_ints ops -> reachable (run ops s).
Proof.
  unfold run. revert s. induction ops as [|op ops IH]; intros s Hs Hops; simpl.
  - exact Hs.
  - inversion Hops; subst. apply IH; [now apply reachable_step | assumption].
Qed.

Lemma run_app ops1 ops2 s : run (ops1 ++ ops2)%list s = run ops2 (run ops1 s).
Proof. apply fold_left_app. Qed.

End Views.

Ltac solve_ints :=
  repeat match goal with
         | |- Forall _ _ => constructor
         | |- _ /\ _ => split
         | |- True => exact I
         end;
  simpl; unfold item_ints, in_int, int_min, int_max; simpl; lia.

(** C2. When the front order names an item of the catalog whose quantity is
    at least the ordered quantity, [processNextOrder] leaves under that id
    the same record with its quantity lowered by exactly the ordered
    quantity, changes nothing else in the catalog, takes the order off the
    queue, and puts an "Order Processed" transaction on top of the
    history. *)
Theorem processNextOrder_fulfils :
  forall (R : Runtime) (now : time_t) (s : WarehouseSystem)
         (order : Order) (rest : list Order) (item : InventoryItem),
    reachable s ->
    orderQueue s = order :: rest ->
    findItem (getItemId order) s = Some item ->
    getOrderQuantity order <= getQuantity item ->
    let s' := processNextOrder now s in
    findItem (getItemId order) s'
      = Some (mkItem (getId item) (getName item) (getCategory item)
                     (getQuantity item - getOrderQuantity order)
                     (getPrice item) (getMinStockLevel item))
    /\ option_map getQuantity (findItem (getItemId order) s')
       = Some (getQuantity item - getOrderQuantity order)
    /\ (forall id, id <> getItemId order -> findItem id s' = findItem id s)
    /\ map fst (inventory s') = map fst (inventory s)
    /\ orderQueue s' = rest
    /\ transactionHistory s'
       = mkTransaction now "Order Processed" (getItemId order)
           ("Processed order #" ++ to_string (getOrderId order) ++ " for "
            ++ to_string (getOrderQuantity order) ++ " units")
         :: transactionHistory s
    /\ cout s' = cout s ++ "Order #" ++ to_string (getOrderId order)
                        ++ " processed successfully!" ++ newline.
Proof.
  intros R now s order rest item Hreach Hq Hfind Hle s'.
  destruct (reachable_invariant s Hreach) as [Ho He _].
  rewrite Hq in Ho. inversion Ho as [|? ? [[Hpos Hmax] _] _]; subst.
  destruct (map_find_entry_ok _ _ _ He Hfind) as (_ & Hin & _).
  assert (Hw : wrap (getQuantity item - getOrderQuantity order)
               = getQuantity item - getOrderQuantity order).
  { unfold wrap, in_int, int_min, int_max in *. rewrite Z.mod_small; lia. }
  subst s'. unfold processNextOrder, findItem in *. rewrite Hq. simpl.
  rewrite Hfind.
  destruct (Z.leb_spec (getOrderQuantity order) (getQuantity item)); [|lia].
  simpl. rewrite Hw.
  assert (Hnew : map_find (getItemId order)
                   (map_modify (getItemId order)
                      (setQuantity (getQuantity item - getOrderQuantity order))
                      (inventory s))
                 = Some (mkItem (getId item) (getName item) (getCategory item)
                                (getQuantity item - getOrderQuantity order)
                                (getPrice item) (getMinStockLevel item))).
  { now rewrite (map_find_modify_same _ _ _ _ Hfind). }
  repeat split.
  - exact Hnew.
  - now rewrite Hnew.
  - intros id Hne. now apply map_find_modify_other.
  - apply map_modify_keys.
Qed.

Lemma processNextOrder_fulfils_witness :
  let s := run [OpAddItem 100 widget; OpCreateOrder 101 101 5 3] fresh_system in
  findItem 5 (processNextOrder 102 s)
    = Some (mkItem 5 "Widget" "Tools" 7 2.5%float 3)
  /\ option_map getQuantity (findItem 5 (processNextOrder 102 s)) = Some 7
  /\ orderQueue (processNextOrder 102 s) = [].
Proof.
  intro s.
  assert (Hreach : reachable s).
  { apply reachable_run; [|solve_ints]. now apply (reachable_new None ""). }
  assert (Hq : orderQueue s = [mkOrder 1 5 3 "Pending" 101])
    by (vm_compute; reflexivity).
  assert (Hf : findItem (getItemId (mkOrder 1 5 3 "Pending" 101)) s
               = Some widget) by (vm_compute; reflexivity).
  assert (Hle : getOrderQuantity (mkOrder 1 5 3 "Pending" 101)
                <= getQuantity widget) by (simpl; lia).
  destruct (processNextOrder_fulfils decimal_runtime 102 s
              (mkOrder 1 5 3 "Pending" 101) [] widget Hreach Hq Hf Hle)
    as (Hitem & Hqty & _ & _ & Hqueue & _).
  split; [exact Hitem|]. split; [exact Hqty | exact Hqueue].
Defined.

(** ** [updateItem] *)

(** C7. [updateItem] returns true exactly when the catalog has an item of
    that id; it then stores the given record under that id, keeping every
    other entry and the set and order of the keys.  Otherwise it returns
    false and the whole state, catalog included, is as before. *)
Theorem updateItem_spec :
  forall (R : Runtime) (item : InventoryItem) (s : WarehouseSystem),
    reachable s ->
    let s' := fst (updateItem item s) in
    let found := snd (updateItem item s) in
    (found = true <-> findItem (getId item) s <> None)
    /\ (found = true ->
        findItem (getId item) s' = Some item
        /\ (forall id, id <> getId item -> findItem id s' = findItem id s)
        /\ map fst (inventory s') = map fst (inventory s))
    /\ (found = false -> s' = s).
Proof.
  intros R item s Hreach. destruct (reachable_invariant s Hreach) as [_ _ Hs].
  unfold updateItem, findItem.
  destruct (map_find (getId item) (inventory s)) as [old|] eqn:Hf; simpl.
  - split; [split; [discriminate | reflexivity]|].
    split; [intros _ | discriminate].
    split; [apply map_find_assign_same|].
    split; [intros id Hne; now apply map_find_assign_other|].
    now apply map_assign_keys_present with old.
  - split; [split; [discriminate | congruence]|].
    split; [discriminate | reflexivity].
Qed.

Lemma updateItem_spec_witness :
  let s := run [OpAddItem 100 widget] fresh_system in
  findItem 5 (fst (updateItem (setQuantity 4 widget) s))
    = Some (setQuantity 4 widget)
  /\ fst (updateItem bolt s) = s.
Proof.
  intro s.
  assert (Hreach : reachable s).
  { apply reachable_run; [|solve_ints]. now apply (reachable_new None ""). }
  split.
  - apply (updateItem_spec decimal_runtime (setQuantity 4 widget) s Hreach).
    reflexivity.
  - apply (updateItem_spec decimal_runtime bolt s Hreach). reflexivity.
Defined.

(** ** Orders in the queue *)

Section Orders.

Context {R : Runtime}.

(** An order in the queue after a call was there before it, or is the one
    the call has just built. *)
Lemma step_orders s op o :
  In o (orderQueue (step s op)) ->
  In o (orderQueue s)
  \/ exists now itemId quantity,
       o = newOrder now (nextOrderId s) itemId quantity
       /\ nextOrderId (step s op) = wrap (nextOrderId s + 1).
Proof.
  destruct op as [now item|id|item| | |otime now itemId q|now|]; simpl.
  - auto.
  - unfold removeItem. destruct (map_find id (inventory s)); auto.
  - unfold updateItem. destruct (map_find (getId item) (inventory s)); auto.
  - destruct (sortByName_same s) as (_ & _ & _ & -> & _). auto.
  - destruct (sortByQuantity_same s) as (_ & _ & _ & -> & _). auto.
  - unfold createOrder. destruct (findItem itemId s); [|auto].
    destruct (0 <? q); [|auto]. simpl. rewrite in_app_iff. simpl.
    intros [H|[<-|[]]]; [auto | right; eauto 6].
  - unfold processNextOrder.
    destruct (orderQueue s) as [|order rest] eqn:Hq; simpl;
      [rewrite Hq; auto|].
    destruct (findItem (getItemId order) _) as [item|]; simpl; [|auto].
    destruct (getOrderQuantity order <=? getQuantity item); simpl; [auto|].
    rewrite in_app_iff. simpl. intros [H|[<-|[]]]; auto.
  - destruct (displayOrderQueue_same s) as (_ & _ & _ & -> & _). auto.
Qed.

End Orders.

(** C9. An order is built with status "Pending"; every call leaves in the
    queue only orders that were in it, unchanged, and the order it has just
    built; so in every state of an object all queued orders are
    "Pending", and a fulfilled order leaves the queue without its status
    having been written. *)
Theorem queued_orders_pending :
  forall (R : Runtime) (s : WarehouseSystem),
    reachable s ->
    Forall (fun o => getStatus o = "Pending") (orderQueue s)
    /\ (forall now orderId itemId quantity,
          getStatus (newOrder now orderId itemId quantity) = "Pending")
    /\ (forall op o,
          In o (orderQueue (step s op)) ->
          In o (orderQueue s)
          \/ exists now itemId quantity,
               o = newOrder now (nextOrderId s) itemId quantity).
Proof.
  intros R s Hreach. split; [|split].
  - destruct (reachable_invariant s Hreach) as [Ho _ _].
    eapply Forall_impl; [|exact Ho]. intros o [_ Hst]. exact Hst.
  - reflexivity.
  - intros op o Hin.
    destruct (step_orders s op o Hin) as [Hold|(now & itemId & q & Ho & _)];
      eauto.
Qed.

Lemma queued_orders_pending_witness :
  Forall (fun o => getStatus o = "Pending")
    (orderQueue
       (run [OpAddItem 100 bolt; OpCreateOrder 101 101 2 5; OpCreateOrder 102 102 2 1;
             OpProcessNextOrder 103; OpDisplayOrderQueue]
            fresh_system)).
Proof.
  apply (queued_orders_pending decimal_runtime).
  apply reachable_run; [|solve_ints].
  now apply (reachable_new None "").
Defined.

(** ** The transaction history *)

Definition catalog_edit (op : Op) : Prop :=
  match op with
  | OpRemoveItem _ | OpUpdateItem _ => True
  | _ => False
  end.

Section History.

Context {R : Runtime}.

Lemma catalog_edit_history s op :
  catalog_edit op -> transactionHistory (step s op) = transactionHistory s.
Proof.
  destruct op as [now item|id|item| | |otime now itemId q|now|]; simpl;
    try contradiction; intros _.
  - unfold removeItem. now destruct (map_find id (inventory s)).
  - unfold updateItem. now destruct (map_find (getId item) (inventory s)).
Qed.

Lemma catalog_edits_history ops :
  forall s, Forall catalog_edit ops ->
            transactionHistory (run ops s) = transactionHistory s.
Proof.
  unfold run. induction ops as [|op ops IH]; intros s Hops; simpl.
  - reflexivity.
  - inversion Hops; subst. rewrite IH by assumption.
    now apply catalog_edit_history.
Qed.

End History.

(** C10. A run of [removeItem] and [updateItem] calls, whatever they
    return, leaves the transaction history as it was.  A call changes the
    history only by putting one transaction on top, and only when it is
    [addItem], a [createOrder] for an item of the catalog with a positive
    quantity, or a [processNextOrder] whose front order can be fulfilled;
    each of these three does record one. *)
Theorem history_writers :
  forall (R : Runtime) (s : WarehouseSystem),
    (forall ops, Forall catalog_edit ops ->
                 transactionHistory (run ops s) = transactionHistory s)
    /\ (forall op,
          transactionHistory (step s op) = transactionHistory s
          \/ exists t,
               transactionHistory (step s op) = t :: transactionHistory s
               /\ match op with
                  | OpAddItem _ _ => action t = "Add"
                  | OpCreateOrder _ _ itemId quantity =>
                      action t = "Order Created"
                      /\ findItem itemId s <> None /\ 0 < quantity
                  | OpProcessNextOrder _ =>
                      action t = "Order Processed"
                      /\ exists order rest item,
                           orderQueue s = order :: rest
                           /\ findItem (getItemId order) s = Some item
                           /\ getOrderQuantity order <= getQuantity item
                  | _ => False
                  end)
    /\ (forall now item,
          exists t, action t = "Add"
            /\ transactionHistory (addItem now item s)
               = t :: transactionHistory s)
    /\ (forall orderTime now itemId quantity,
          findItem itemId s <> None -> 0 < quantity ->
          exists t, action t = "Order Created"
            /\ transactionHistory (createOrder orderTime now itemId quantity s)
               = t :: transactionHistory s)
    /\ (forall now order rest item,
          orderQueue s = order :: rest ->
          findItem (getItemId order) s = Some item ->
          getOrderQuantity order <= getQuantity item ->
          exists t, action t = "Order Processed"
            /\ transactionHistory (processNextOrder now s)
               = t :: transactionHistory s).
Proof.
  intros R s. split; [|split; [|split; [|split]]].
  - intros ops. apply catalog_edits_history.
  - intros [now item|id|item| | |otime now itemId q|now|]; simpl.
    + right. eexists. split; [reflexivity|]. reflexivity.
    + left. now apply catalog_edit_history with (op := OpRemoveItem id).
    + left. now apply catalog_edit_history with (op := OpUpdateItem item).
    + left. apply sortByName_same.
    + left. apply sortByQuantity_same.
    + unfold createOrder. destruct (findItem itemId s) eqn:Hf; [|now left].
      destruct (Z.ltb_spec 0 q); [|now left].
      right. eexists. split; [reflexivity|]. simpl.
      repeat split; [discriminate | assumption].
    + unfold processNextOrder.
      destruct (orderQueue s) as [|order rest] eqn:Hq; [now left|]. simpl.
      destruct (findItem (getItemId order) (set_orderQueue rest s))
        as [item|] eqn:Hf; [|now left].
      destruct (Z.leb_spec (getOrderQuantity order) (getQuantity item));
        [|now left].
      right. eexists. split; [reflexivity|]. simpl.
      split; [reflexivity|]. exists order, rest, item. auto.
    + left. apply displayOrderQueue_same.
  - intros now item. eexists. split; [|reflexivity]. reflexivity.
  - intros otime now itemId q Hf Hq. unfold createOrder.
    destruct (findItem itemId s); [|congruence].
    destruct (Z.ltb_spec 0 q); [|lia].
    eexists. split; [|reflexivity]. reflexivity.
  - intros now order rest item Hq Hf Hle. unfold processNextOrder.
    rewrite Hq. simpl. unfold findItem in *. simpl. rewrite Hf.
    destruct (Z.leb_spec (getOrderQuantity order) (getQuantity item)); [|lia].
    eexists. split; [|reflexivity]. reflexivity.
Qed.

Lemma history_writers_witness :
  let s := run [OpAddItem 100 widget; OpCreateOrder 101 101 5 3] fresh_system in
  transactionHistory
    (run [OpUpdateItem (setQuantity 4 widget); OpRemoveItem 9; OpRemoveItem 5] s)
  = transactionHistory s.
Proof.
  intro s.
  apply (history_writers decimal_runtime s).
  repeat constructor.
Defined.

(** ** Order identifiers *)

Definition order_ids_below (s : WarehouseSystem) : Prop :=
  Forall (fun o => getOrderId o < nextOrderId s) (orderQueue s).

Section OrderIds.

Context {R : Runtime}.

Lemma wrap_small (z : Z) : in_int z -> wrap z = z.
Proof.
  unfold wrap, in_int, int_min, int_max. intros H.
  rewrite Z.mod_small; lia.
Qed.

Lemma step_nextOrderId s op :
  int_min <= nextOrderId s < int_max ->
  nextOrderId s <= nextOrderId (step s op) <= nextOrderId s + 1.
Proof.
  intros Hn.
  destruct op as [now item|id|item| | |otime now itemId q|now|]; simpl.
  - lia.
  - unfold removeItem. destruct (map_find id (inventory s)); simpl; lia.
  - unfold updateItem.
    destruct (map_find (getId item) (inventory s)); simpl; lia.
  - destruct (sortByName_same s) as (_ & _ & _ & _ & _ & -> & _). lia.
  - destruct (sortByQuantity_same s) as (_ & _ & _ & _ & _ & -> & _). lia.
  - unfold createOrder. destruct (findItem itemId s); simpl; [|lia].
    destruct (0 <? q); simpl; [|lia].
    rewrite wrap_small; [lia|]. unfold in_int, int_min, int_max in *. lia.
  - unfold processNextOrder. destruct (orderQueue s) as [|order rest]; simpl;
      [lia|].
    destruct (findItem (getItemId order) _) as [item|]; simpl; [|lia].
    destruct (getOrderQuantity order <=? getQuantity item); simpl; lia.
  - destruct (displayOrderQueue_same s) as (_ & _ & _ & _ & _ & -> & _). lia.
Qed.

Lemma step_order_ids_below s op :
  int_min <= nextOrderId s < int_max ->
  order_ids_below s -> order_ids_below (step s op).
Proof.
  intros Hn Hb. unfold order_ids_below in *. rewrite Forall_forall in *.
  intros o Hin. pose proof (step_nextOrderId s op Hn) as Hmono.
  destruct (step_orders s op o Hin) as [Hold|(now & itemId & q & -> & Hnext)].
  - specialize (Hb o Hold). lia.
  - simpl. rewrite Hnext, wrap_small; [lia|].
    unfold in_int, int_min, int_max in *. lia.
Qed.

Lemma run_order_ids ops :
  forall s,
    int_min <= nextOrderId s ->
    nextOrderId s + Z.of_nat (List.length ops) <= int_max ->
    order_ids_below s ->
    order_ids_below (run ops s)
    /\ nextOrderId s <= nextOrderId (run ops s)
       <= nextOrderId s + Z.of_nat (List.length ops).
Proof.
  unfold run. induction ops as [|op ops IH]; intros s Hlo Hhi Hb.
  - simpl. split; [exact Hb | lia].
  - cbn [fold_left]. change (List.length (op :: ops)) with (S (List.length ops)) in *.
    rewrite Nat2Z.inj_succ in *.
    assert (Hn : int_min <= nextOrderId s < int_max) by lia.
    pose proof (step_nextOrderId s op Hn) as Hstep.
    destruct (IH (step s op)) as [Hb' Hbound];
      [lia | lia | now apply step_order_ids_below |].
    split; [exact Hb' | lia].
Qed.

Lemma new_order_ids disk console s :
  WarehouseSystem_new disk console = Ok s ->
  nextOrderId s = 1 /\ orderQueue s = [].
Proof.
  unfold WarehouseSystem_new, loadFromFile. simpl.
  destruct disk as [text|]; simpl.
  - destruct (load_lines _ [] 1) as [[m next]|]; simpl; [|discriminate].
    now intros [= <-].
  - now intros [= <-].
Qed.

End OrderIds.

(** C4. [createOrder] prints the invalid order message exactly when the
    item is not in the catalog or the quantity is not positive, and then
    changes nothing but the console.  Otherwise it puts at the back of the
    queue one order, whose id is the current [nextOrderId], whose item and
    quantity are the arguments, whose status is "Pending" and whose time
    is the first clock reading; [nextOrderId] becomes that id plus one, and
    an "Order Created" transaction stamped with the second clock reading
    goes on top of the history.  The id is above that of every order that
    was in the queue at any earlier moment of the object's life.  The
    calls made on the object are fewer than [int_max - 1], so that the
    counter has not run over. *)
Theorem createOrder_spec :
  forall (R : Runtime) (disk : option string) (console : string)
         (s0 : WarehouseSystem) (ops : list Op)
         (orderTime now : time_t) (itemId quantity : Z),
    WarehouseSystem_new disk console = Ok s0 ->
    Z.of_nat (List.length ops) < int_max - 1 ->
    let s := run ops s0 in
    let s' := createOrder orderTime now itemId quantity s in
    let invalid := findItem itemId s = None \/ quantity <= 0 in
    (invalid <-> cout s' = cout s ++ "Invalid item ID or quantity!" ++ newline)
    /\ (invalid ->
        orderQueue s' = orderQueue s /\ nextOrderId s' = nextOrderId s
        /\ transactionHistory s' = transactionHistory s
        /\ same_members s s')
    /\ (~ invalid ->
        exists order,
          orderQueue s' = (orderQueue s ++ [order])%list
          /\ getOrderId order = nextOrderId s
          /\ getItemId order = itemId
          /\ getOrderQuantity order = quantity
          /\ getStatus order = "Pending"
          /\ getOrderTime order = orderTime
          /\ nextOrderId s' = getOrderId order + 1
          /\ transactionHistory s'
             = mkTransaction now "Order Created" itemId
                 ("Ordered " ++ to_string quantity ++ " units")
               :: transactionHistory s
          /\ cout s' = cout s ++ "Order created successfully!" ++ newline
          /\ Forall (fun o => getOrderId o < getOrderId order) (orderQueue s)
          /\ (forall ops1 ops2 o,
                ops = (ops1 ++ ops2)%list ->
                In o (orderQueue (run ops1 s0)) ->
                getOrderId o < getOrderId order)).
Proof.
  intros R disk console s0 ops otime now itemId q Hnew Hlen s s' invalid.
  destruct (new_order_ids _ _ _ Hnew) as [Hn0 Hq0].
  assert (Hb0 : order_ids_below s0).
  { unfold order_ids_below. rewrite Hq0. constructor. }
  assert (Hint : int_min <= 1 /\ 1 <= int_max) by (unfold int_min, int_max; lia).
  destruct (run_order_ids ops s0) as [Hb Hbound]; [lia | lia | exact Hb0|].
  fold s in Hb, Hbound. rewrite Hn0 in Hbound.
  assert (Hcases :
    (invalid /\ s' = print ("Invalid item ID or quantity!" ++ newline) s)
    \/ (~ invalid /\
        s' = print ("Order created successfully!" ++ newline)
               (addTransaction now "Order Created" itemId
                  ("Ordered " ++ to_string q ++ " units")
                  (set_orderQueue
                     (orderQueue s
                      ++ [newOrder otime (nextOrderId s) itemId q])%list
                     (set_nextOrderId (wrap (nextOrderId s + 1)) s))))).
  { subst s' invalid. unfold createOrder.
    destruct (findItem itemId s) eqn:Hf.
    - destruct (Z.ltb_spec 0 q) as [Hpos|Hneg].
      + right. split; [|reflexivity]. intros [H|H]; [discriminate | lia].
      + left. split; [now right | reflexivity].
    - left. split; [now left | reflexivity]. }
  destruct Hcases as [[Hinv ->]|[Hval ->]].
  - split; [split; [reflexivity | auto]|].
    split; [intros _; repeat split | contradiction].
  - split; [split; [contradiction|]|].
    { simpl. intros Heq. apply append_cancel_l in Heq. discriminate. }
    split; [contradiction | intros _].
    exists (newOrder otime (nextOrderId s) itemId q).
    simpl. rewrite wrap_small by (unfold in_int; lia).
    repeat split.
    + exact Hb.
    + intros ops1 ops2 o Hops Hin.
      assert (Hl : (Z.of_nat (List.length ops1) + Z.of_nat (List.length ops2)
                    = Z.of_nat (List.length ops))).
      { subst ops. rewrite length_app. lia. }
      destruct (run_order_ids ops1 s0) as [Hb1 Hbound1];
        [lia | lia | exact Hb0|].
      destruct (run_order_ids ops2 (run ops1 s0)) as [_ Hbound2];
        [lia | lia | exact Hb1|].
      rewrite <- run_app, <- Hops in Hbound2. fold s in Hbound2.
      unfold order_ids_below in Hb1. rewrite Forall_forall in Hb1.
      specialize (Hb1 o Hin). lia.
Qed.

Lemma createOrder_spec_witness :
  let s := run [OpAddItem 100 widget; OpCreateOrder 101 101 5 3] fresh_system in
  (exists order,
      orderQueue (createOrder 102 103 5 2 s) = (orderQueue s ++ [order])%list
      /\ getOrderId order = 2 /\ getOrderQuantity order = 2)
  /\ orderQueue (createOrder 102 103 5 0 s) = orderQueue s.
Proof.
  intro s.
  pose proof (createOrder_spec decimal_runtime None "" fresh_system
                [OpAddItem 100 widget; OpCreateOrder 101 101 5 3] 102 103 5 2
                eq_refl) as Hvalid.
  pose proof (createOrder_spec decimal_runtime None "" fresh_system
                [OpAddItem 100 widget; OpCreateOrder 101 101 5 3] 102 103 5 0
                eq_refl) as Hinvalid.
  split.
  - destruct Hvalid as (_ & _ & Hv); [unfold int_max; simpl; lia|].
    destruct Hv as (order & Hq & Hid & _ & Hqty & _).
    { intros [H|H]; [discriminate H | lia]. }
    exists order. split; [exact Hq|]. split; [exact Hid | exact Hqty].
  - apply Hinvalid; [unfold int_max; simpl; lia|].
    right. lia.
Defined.

(** ** [addItem] and [nextId] *)

Lemma addItem_getNextId (R : Runtime) now item s :
  getNextId (addItem now item s) = wrap (getId item + 1).
Proof. reflexivity. Qed.

(** The constructor, reading items with ids 5 and then 2 from the file,
    takes the maximum. *)
Example loadFromFile_nextId_is_max :
  option_map getNextId
    (match WarehouseSystem_new
             (Some (csv_header ++ csv_row widget ++ csv_row bolt)) "" with
     | Ok s => Some s
     | Throw _ => None
     end)
  = Some 6.
Proof. vm_compute. reflexivity. Qed.

(** ** Sorting *)

Section Sorting.

Context {A : Type} (comp : A -> A -> bool).
Hypothesis comp_swo : strict_weak_order comp.

Lemma swo_asym a b : comp a b = true -> comp b a = false.
Proof.
  destruct comp_swo as (Hirr & Htr & _). intros Hab.
  destruct (comp b a) eqn:Hba; [|reflexivity].
  rewrite <- (Hirr a). symmetry. now apply Htr with b.
Qed.

(** What is below [x] is below [y] or has [y] below [x]. *)
Lemma swo_split z x y :
  comp z x = true -> comp z y = true \/ comp y x = true.
Proof.
  destruct comp_swo as (Hirr & Htr & Heq). intros Hzx.
  destruct (comp z y) eqn:Hzy; [now left|].
  destruct (comp y x) eqn:Hyx; [now right|]. exfalso.
  destruct (comp y z) eqn:Hyz.
  - rewrite (Htr y z x Hyz Hzx) in Hyx. discriminate.
  - destruct (comp x y) eqn:Hxy.
    + rewrite (Htr z x y Hzx Hxy) in Hzy. discriminate.
    + destruct (Heq z y x Hzy Hyz Hyx Hxy) as [H _]. congruence.
Qed.

Lemma insert_sorted_perm x l : Permutation (x :: l) (insert_sorted comp x l).
Proof.
  induction l as [|y l IH]; simpl; [reflexivity|].
  destruct (comp y x); [|reflexivity].
  rewrite perm_swap. now constructor.
Qed.

Lemma insertion_sort_perm l : Permutation l (insertion_sort comp l).
Proof.
  induction l as [|x l IH]; simpl; [constructor|].
  rewrite <- insert_sorted_perm. now constructor.
Qed.

Lemma insert_sorted_sorted x l :
  StronglySorted (fun a b => comp b a = false) l ->
  StronglySorted (fun a b => comp b a = false) (insert_sorted comp x l).
Proof.
  induction l as [|y l IH]; simpl; intros Hs.
  - repeat constructor.
  - inversion Hs as [|? ? Hs' Hall]; subst.
    destruct (comp y x) eqn:Hyx.
    + constructor; [auto|].
      eapply Permutation_Forall; [apply insert_sorted_perm|].
      constructor; [now apply swo_asym | exact Hall].
    + constructor; [exact Hs|].
      constructor; [exact Hyx|].
      eapply Forall_impl; [|exact Hall]. simpl. intros z Hzy.
      destruct (comp z x) eqn:Hzx; [|reflexivity].
      destruct (swo_split z x y Hzx); congruence.
Qed.

Lemma insertion_sort_sorted l :
  StronglySorted (fun a b => comp b a = false) (insertion_sort comp l).
Proof.
  induction l as [|x l IH]; simpl; [constructor|].
  now apply insert_sorted_sorted.
Qed.

End Sorting.

Lemma decimal_runtime_sorts : std_sort_contract decimal_runtime.
Proof.
  intros comp items Hswo. split.
  - apply insertion_sort_perm.
  - now apply insertion_sort_sorted.
Qed.

(** The two comparators of the engine. *)

Lemma string_compare_refl (a : string) : String.compare a a = Eq.
Proof.
  induction a as [|x a IH]; simpl; [reflexivity|].
  unfold Ascii.compare. now rewrite N.compare_refl.
Qed.

Lemma string_lt_trans (a b c : string) :
  String.compare a b = Lt -> String.compare b c = Lt -> String.compare a c = Lt.
Proof.
  revert b c. induction a as [|x a IH]; intros [|y b] [|z c]; simpl;
    try discriminate; auto.
  destruct (Ascii.compare x y) eqn:Hxy; try discriminate.
  - apply Ascii.compare_eq_iff in Hxy. subst y.
    destruct (Ascii.compare x z); [apply IH | auto | auto].
  - intros _. destruct (Ascii.compare y z) eqn:Hyz; try discriminate.
    + apply Ascii.compare_eq_iff in Hyz. subst z. now rewrite Hxy.
    + intros _. unfold Ascii.compare in *. rewrite N.compare_lt_iff in *.
      assert (H : (N_of_ascii x < N_of_ascii z)%N) by lia.
      apply N.compare_lt_iff in H. now rewrite H.
Qed.

Lemma string_ltb_incomparable (a b : string) :
  String.ltb a b = false -> String.ltb b a = false -> a = b.
Proof.
  unfold String.ltb. rewrite (String.compare_antisym b a).
  destruct (String.compare a b) eqn:Hab; simpl; try discriminate.
  intros _ _. now apply String.compare_eq_iff.
Qed.

Lemma name_less_swo : strict_weak_order name_less.
Proof.
  unfold name_less. split; [|split].
  - intros a. unfold String.ltb. now rewrite string_compare_refl.
  - intros a b c. unfold String.ltb.
    destruct (String.compare (getName a) (getName b)) eqn:Hab; try discriminate.
    destruct (String.compare (getName b) (getName c)) eqn:Hbc; try discriminate.
    now rewrite (string_lt_trans _ _ _ Hab Hbc).
  - intros a b c Hab Hba Hbc Hcb.
    rewrite (string_ltb_incomparable _ _ Hab Hba). auto.
Qed.

Lemma quantity_less_swo : strict_weak_order quantity_less.
Proof.
  unfold quantity_less. split; [|split].
  - intros a. apply Z.ltb_irrefl.
  - intros a b c. rewrite !Z.ltb_lt. lia.
  - intros a b c. rewrite !Z.ltb_ge. lia.
Qed.

Lemma print_all_cout {A} (line : A -> string) (l : list A) (s : WarehouseSystem) :
  cout (print_all line l s) = cout s ++ text_of line l.
Proof.
  unfold print_all. revert s. induction l as [|x l IH]; intros s; simpl.
  - now rewrite append_empty_r.
  - rewrite IH. simpl. apply append_assoc.
Qed.

Lemma snapshot_by_id (m : inventory_t) :
  keys_sorted m -> Forall entry_ok m ->
  StronglySorted (fun a b => getId a < getId b) (map snd m).
Proof.
  unfold keys_sorted. induction m as [|[k v] m IH]; simpl; intros Hs He.
  - constructor.
  - inversion Hs as [|? ? Hs' Hall]; inversion He as [|? ? [Hk _] He'];
      subst; simpl in *.
    constructor; [auto|].
    rewrite Forall_map in *. rewrite Forall_forall in *.
    intros [k' v'] Hin. specialize (Hall _ Hin).
    destruct (He' _ Hin) as [Hk' _]. simpl in *. lia.
Qed.

Lemma StronglySorted_impl {A} (P Q : A -> A -> Prop) (l : list A) :
  (forall a b, P a b -> Q a b) -> StronglySorted P l -> StronglySorted Q l.
Proof.
  intros HPQ. induction 1 as [|a l Hl IH Hall]; constructor; [exact IH|].
  eapply Forall_impl; [|exact Hall]. apply HPQ.
Qed.

Lemma string_leb_of_ltb (a b : string) :
  String.ltb b a = false -> String.leb a b = true.
Proof.
  unfold String.ltb, String.leb. rewrite (String.compare_antisym b a).
  now destruct (String.compare a b).
Qed.

(** C8, as the code has it.  [sortByName] and [sortByQuantity] change the
    console only.  What they print is a rearrangement of the snapshot of
    the catalog, which is in ascending id order, with names ascending in
    the lexicographic order of strings, respectively with quantities
    ascending; [std::sort] fixes no order among items of equal quantity. *)
Theorem sorted_views :
  forall (R : Runtime) (s : WarehouseSystem),
    std_sort_contract R ->
    reachable s ->
    StronglySorted (fun a b => getId a < getId b) (getAllItems s)
    /\ (same_members s (sortByName s)
        /\ cout (sortByName s)
           = cout s ++ text_of sortByName_line (sortByName_items s)
        /\ Permutation (getAllItems s) (sortByName_items s)
        /\ StronglySorted
             (fun a b => String.leb (getName a) (getName b) = true)
             (sortByName_items s))
    /\ (same_members s (sortByQuantity s)
        /\ cout (sortByQuantity s)
           = cout s ++ text_of sortByQuantity_line (sortByQuantity_items s)
        /\ Permutation (getAllItems s) (sortByQuantity_items s)
        /\ StronglySorted (fun a b => getQuantity a <= getQuantity b)
             (sortByQuantity_items s)).
Proof.
  intros R s Hsort Hreach.
  destruct (reachable_invariant s Hreach) as [_ He Hs].
  split; [now apply snapshot_by_id|]. split.
  - destruct (Hsort name_less (getAllItems s) name_less_swo) as [Hperm Hsorted].
    split; [apply sortByName_same|].
    split; [apply print_all_cout|].
    split; [exact Hperm|].
    eapply StronglySorted_impl; [|exact Hsorted].
    intros a b. apply string_leb_of_ltb.
  - destruct (Hsort quantity_less (getAllItems s) quantity_less_swo)
      as [Hperm Hsorted].
    split; [apply sortByQuantity_same|].
    split; [apply print_all_cout|].
    split; [exact Hperm|].
    eapply StronglySorted_impl; [|exact Hsorted].
    intros a b. unfold quantity_less. rewrite Z.ltb_ge. auto.
Qed.

Lemma sorted_views_witness :
  let s := run [OpAddItem 100 widget; OpAddItem 101 nut; OpAddItem 102 bolt;
                OpAddItem 103 anvil]
               fresh_system in
  Permutation [anvil; bolt; nut; widget] (sortByQuantity_items s)
  /\ StronglySorted (fun a b => getQuantity a <= getQuantity b)
       [bolt; nut; widget; anvil].
Proof.
  intro s.
  assert (Hreach : reachable s).
  { apply reachable_run; [|solve_ints]. now apply (reachable_new None ""). }
  destruct (sorted_views decimal_runtime s decimal_runtime_sorts Hreach)
    as (_ & _ & _ & _ & Hperm & Hsorted).
  split; [exact Hperm | exact Hsorted].
Defined.

(** On the catalog of the witness the sort of the GNU C++ library gives
    the same two views as the insertion sort. *)
Example gnu_sort_agrees_on_small_catalog :
  let s := run [OpAddItem 100 widget; OpAddItem 101 nut; OpAddItem 102 bolt;
                OpAddItem 103 anvil]
               fresh_system in
  @sortByQuantity_items gnu_runtime s = [bolt; nut; widget; anvil]
  /\ @sortByName_items gnu_runtime s = [anvil; bolt; nut; widget]
  /\ sortByQuantity_items s = [bolt; nut; widget; anvil]
  /\ sortByName_items s = [anvil; bolt; nut; widget].
Proof. vm_compute. repeat split. Qed.

(** C8, as stated, fails: with the sort of the GNU C++ library, twenty
    items of quantity 1 added with ids 1 to 20 come out of
    [sortByQuantity] with id 11 first and id 2 last. *)
Lemma sortByQuantity_ties_not_by_id :
  let s := @run gnu_runtime twenty_parts fresh_system in
  map getId (@sortByQuantity_items gnu_runtime s)
  = [11; 20; 19; 18; 17; 16; 15; 14; 13; 12; 1; 10; 9; 8; 7; 6; 5; 4; 3; 2]
  /\ ~ StronglySorted by_quantity_then_id (@sortByQuantity_items gnu_runtime s).
Proof.
  intro s.
  assert (Hids : map getId (@sortByQuantity_items gnu_runtime s)
                 = [11; 20; 19; 18; 17; 16; 15; 14; 13; 12; 1; 10; 9; 8; 7; 6;
                    5; 4; 3; 2]) by (vm_compute; reflexivity).
  split; [exact Hids|]. intros Hsorted.
  assert (Hrel : forall l,
             StronglySorted by_quantity_then_id l ->
             Forall (fun item => getQuantity item = 1) l ->
             StronglySorted Z.lt (map getId l)).
  { induction 1 as [|a l Hl IH Hall]; intros Hq; simpl; [constructor|].
    inversion Hq as [|? ? Ha Hq']; subst. constructor; [auto|].
    rewrite Forall_map. rewrite Forall_forall in *. intros b Hb.
    destruct (Hall b Hb) as [Hlt|[_ Hlt]]; [|exact Hlt].
    rewrite Ha, (Hq' b Hb) in Hlt. lia. }
  apply Hrel in Hsorted.
  - rewrite Hids in Hsorted. inversion Hsorted as [|? ? _ Hall]; subst.
    inversion Hall as [|? ? _ Hall2]; subst.
    repeat (inversion Hall2 as [|? ? ? Hall3]; subst; clear Hall2;
            rename Hall3 into Hall2; try lia).
  - vm_compute. repeat constructor.
Qed.

(** ** Saving and loading *)

Lemma free_of_append (d : ascii) (a b : string) :
  free_of d (a ++ b) = free_of d a && free_of d b.
Proof.
  induction a as [|c a IH]; simpl; [reflexivity|].
  now rewrite IH, andb_assoc.
Qed.

Lemma cut_field (d : ascii) (t rest : string) :
  free_of d t = true -> cut d (t ++ String d rest) = (t, Some rest).
Proof.
  induction t as [|c t IH]; simpl.
  - now rewrite Ascii.eqb_refl.
  - rewrite andb_true_iff, negb_true_iff. intros [-> Ht]. now rewrite IH.
Qed.

Lemma cut_last (d : ascii) (t : string) :
  free_of d t = true -> cut d t = (t, None).
Proof.
  induction t as [|c t IH]; simpl; [reflexivity|].
  rewrite andb_true_iff, negb_true_iff. intros [-> Ht]. now rewrite IH.
Qed.

Lemma getline_loop_from_line (d : ascii) (t rest acc : string) :
  free_of d t = true ->
  getline_loop_from d acc (t ++ String d rest)
  = (acc ++ t) :: getline_loop_from d "" rest.
Proof.
  revert acc. induction t as [|c t IH]; intros acc; simpl.
  - rewrite Ascii.eqb_refl, append_empty_r. reflexivity.
  - rewrite andb_true_iff, negb_true_iff. intros [-> Ht].
    rewrite IH by assumption. now rewrite append_assoc.
Qed.

(** The decimal text of an integer. *)

Lemma string_of_uint_free (d : ascii) (u : Decimal.uint) :
  digit_of d = None ->
  free_of d (NilEmpty.string_of_uint u) = true.
Proof.
  intros Hd.
  induction u; cbn [NilEmpty.string_of_uint free_of]; try reflexivity;
    rewrite IHu, andb_true_r, negb_true_iff, Ascii.eqb_neq;
    intros <-; discriminate Hd.
Qed.

Lemma to_string_free (d : ascii) (z : Z) :
  digit_of d = None -> d <> "-"%char -> free_of d (to_string z) = true.
Proof.
  intros Hd Hm. unfold to_string, NilZero.string_of_int.
  assert (Hu : forall u, free_of d (NilZero.string_of_uint u) = true).
  { intros u. unfold NilZero.string_of_uint.
    destruct u; try (now apply string_of_uint_free).
    cbn [free_of]. rewrite andb_true_r, negb_true_iff, Ascii.eqb_neq.
    intros <-. discriminate Hd. }
  destruct (Z.to_int z); [apply Hu|].
  cbn [append free_of]. rewrite Hu, andb_true_r, negb_true_iff, Ascii.eqb_neq.
  congruence.
Qed.

Lemma to_string_clean (z : Z) : field_clean (to_string z) = true.
Proof.
  unfold field_clean. rewrite !to_string_free; try reflexivity; discriminate.
Qed.

Lemma read_digits_string_of_uint (u : Decimal.uint) :
  read_digits (NilEmpty.string_of_uint u) = u.
Proof. induction u; simpl; congruence. Qed.

Lemma stoi_unsigned (u : Decimal.uint) :
  u <> Decimal.Nil -> in_int (Z.of_uint u) ->
  stoi (NilEmpty.string_of_uint u) = Ok (Z.of_uint u).
Proof.
  intros Hnil Hin.
  assert (Hb : in_intb (Z.of_uint u) = true).
  { unfold in_intb, in_int in *. rewrite andb_true_iff, !Z.leb_le. exact Hin. }
  unfold stoi.
  destruct u; try congruence; cbn [NilEmpty.string_of_uint];
    match goal with
    | |- context [skip_space (String ?c ?r)] =>
        change (skip_space (String c r)) with (String c r)
    end;
    cbv beta iota zeta; cbn [read_digits digit_of];
    rewrite read_digits_string_of_uint, Hb; reflexivity.
Qed.

Lemma stoi_negative (u : Decimal.uint) :
  u <> Decimal.Nil -> in_int (- Z.of_uint u) ->
  stoi (String "-" (NilEmpty.string_of_uint u)) = Ok (- Z.of_uint u).
Proof.
  intros Hnil Hin.
  assert (Hb : in_intb (- Z.of_uint u) = true).
  { unfold in_intb, in_int in *. rewrite andb_true_iff, !Z.leb_le. exact Hin. }
  unfold stoi.
  change (skip_space (String "-" (NilEmpty.string_of_uint u)))
    with (String "-" (NilEmpty.string_of_uint u)).
  cbv beta iota zeta. rewrite read_digits_string_of_uint.
  destruct u; try congruence; rewrite Hb; reflexivity.
Qed.

Lemma stoi_to_string (z : Z) : in_int z -> stoi (to_string z) = Ok z.
Proof.
  intros Hin. unfold to_string. destruct z as [|p|p].
  - reflexivity.
  - pose proof (DecimalZ.of_to (Z.pos p)) as Hof.
    pose proof (DecimalPos.Unsigned.to_uint_nonnil p) as Hnil.
    cbn [Z.to_int Z.of_int NilZero.string_of_int] in *.
    unfold NilZero.string_of_uint.
    rewrite <- Hof in Hin |- *.
    destruct (Pos.to_uint p) eqn:Hu; try congruence;
      rewrite <- Hu in *; now apply stoi_unsigned.
  - pose proof (DecimalZ.of_to (Z.neg p)) as Hof.
    pose proof (DecimalPos.Unsigned.to_uint_nonnil p) as Hnil.
    cbn [Z.to_int Z.of_int NilZero.string_of_int] in *.
    unfold NilZero.string_of_uint.
    rewrite <- Hof in Hin |- *.
    destruct (Pos.to_uint p) eqn:Hu; try congruence;
      rewrite <- Hu in *; now apply stoi_negative.
Qed.

Section RoundTrip.

Context {R : Runtime}.

Lemma field_clean_comma (t : string) : field_clean t = true -> free_of "," t = true.
Proof. unfold field_clean. now rewrite andb_true_iff. Qed.

Lemma field_clean_nl (t : string) : field_clean t = true -> free_of nl t = true.
Proof. unfold field_clean. now rewrite andb_true_iff. Qed.

Lemma getline_field (t rest old : string) :
  free_of "," t = true ->
  getline "," old (mkStream (t ++ "," ++ rest) true) = (t, mkStream rest true).
Proof.
  intros Ht. unfold getline. cbn [good unread append].
  now rewrite cut_field.
Qed.

Lemma getline_last (t old : string) :
  free_of "," t = true ->
  getline "," old (mkStream t true) = (t, mkStream "" false).
Proof.
  intros Ht. unfold getline. cbn [good unread]. now rewrite cut_last.
Qed.

(** A clean record is read back from its row, with the price [stod] gives
    for the text of the price. *)
Lemma parse_line_csv_line (item : InventoryItem) :
  item_ints item -> saves_cleanly item = true ->
  exists p,
    stod (fixed2 (getPrice item)) = Ok p
    /\ fixed2 p = fixed2 (getPrice item)
    /\ parse_line (csv_line item)
       = Ok (mkItem (getId item) (getName item) (getCategory item)
                    (getQuantity item) p (getMinStockLevel item)).
Proof.
  intros (Hid & Hq & Hm) Hclean.
  unfold saves_cleanly in Hclean. rewrite !andb_true_iff in Hclean.
  destruct Hclean as [[[Hname Hcat] Hprice] Hsurv].
  unfold price_survives in Hsurv.
  destruct (stod (fixed2 (getPrice item))) as [p|] eqn:Hstod; [|discriminate].
  apply String.eqb_eq in Hsurv.
  exists p. split; [reflexivity|]. split; [exact Hsurv|].
  unfold parse_line, csv_line.
  rewrite getline_field by (apply field_clean_comma, to_string_clean).
  rewrite stoi_to_string by exact Hid. cbn [bind].
  rewrite getline_field by now apply field_clean_comma.
  rewrite getline_field by now apply field_clean_comma.
  rewrite getline_field by (apply field_clean_comma, to_string_clean).
  rewrite stoi_to_string by exact Hq. cbn [bind].
  rewrite getline_field by now apply field_clean_comma.
  rewrite Hstod. cbn [bind].
  rewrite getline_last by (apply field_clean_comma, to_string_clean).
  rewrite stoi_to_string by exact Hm. reflexivity.
Qed.

Lemma csv_row_line (item : InventoryItem) (rest : string) :
  csv_row item ++ rest = csv_line item ++ String nl rest.
Proof. unfold csv_row, csv_line, newline. now rewrite !append_assoc. Qed.

Lemma csv_line_free_nl (item : InventoryItem) :
  saves_cleanly item = true -> free_of nl (csv_line item) = true.
Proof.
  unfold saves_cleanly. rewrite !andb_true_iff.
  intros [[[Hname Hcat] Hprice] _]. unfold csv_line.
  rewrite !free_of_append, !(field_clean_nl _ (to_string_clean _)),
    (field_clean_nl _ Hname), (field_clean_nl _ Hcat), (field_clean_nl _ Hprice).
  reflexivity.
Qed.

(** The lines of the saved file: the header, then one per record. *)
Lemma csv_rows_lines (m : inventory_t) :
  Forall (fun e => saves_cleanly (snd e) = true) m ->
  getline_loop_from nl "" (csv_rows m) = map (fun e => csv_line (snd e)) m.
Proof.
  induction m as [|[k v] m IH]; simpl; intros Hm; [reflexivity|].
  inversion Hm; subst. rewrite csv_row_line.
  rewrite getline_loop_from_line by now apply csv_line_free_nl.
  simpl. now rewrite IH.
Qed.

Lemma csv_of_lines (m : inventory_t) :
  Forall (fun e => saves_cleanly (snd e) = true) m ->
  getline_loop nl (csv_of m)
  = "ID,Name,Category,Quantity,Price,MinStockLevel"
    :: map (fun e => csv_line (snd e)) m.
Proof.
  intros Hm. unfold getline_loop, csv_of.
  change (csv_header ++ csv_rows m)
    with ("ID,Name,Category,Quantity,Price,MinStockLevel"
          ++ String nl (csv_rows m)).
  rewrite getline_loop_from_line by reflexivity.
  now rewrite csv_rows_lines.
Qed.

Lemma map_assign_last (k : Z) (v : InventoryItem) (m : inventory_t) :
  Forall (fun e => fst e < k) m -> map_assign k v m = (m ++ [(k, v)])%list.
Proof.
  induction m as [|[k' v'] m IH]; simpl; intros Hm; [reflexivity|].
  inversion Hm as [|? ? Hlt Hm']; subst. simpl in Hlt.
  destruct (Z.ltb_spec k k'); [lia|].
  destruct (Z.eqb_spec k k'); [lia|]. now rewrite IH.
Qed.

Lemma load_rows (m : inventory_t) :
  forall acc next,
    keys_sorted m -> Forall entry_ok m ->
    Forall (fun e => saves_cleanly (snd e) = true) m ->
    Forall (fun e => Forall (fun e' => fst e < fst e') m) acc ->
    exists m' next',
      load_lines (map (fun e => csv_line (snd e)) m) acc next
      = Ok ((acc ++ m')%list, next')
      /\ same_catalog m m'.
Proof.
  unfold keys_sorted.
  induction m as [|[k v] m IH]; intros acc next Hs He Hc Hacc.
  - exists [], next. rewrite app_nil_r. split; [reflexivity | constructor].
  - cbn [map fst snd load_lines] in *.
    inversion Hs as [|? ? Hs' Hlt]; inversion He as [|? ? [Hk Hints] He'];
      inversion Hc as [|? ? Hcv Hc']; subst. cbn [fst snd] in *. subst k.
    destruct (parse_line_csv_line v Hints Hcv) as (p & _ & Hp & Hparse).
    rewrite Hparse. cbn [bind getId].
    rewrite map_assign_last.
    2:{ eapply Forall_impl; [|exact Hacc]. intros e Hall.
        inversion Hall; subst. assumption. }
    destruct (IH (acc ++ [(getId v, mkItem (getId v) (getName v)
                             (getCategory v) (getQuantity v) p
                             (getMinStockLevel v))])%list
                 (Z.max next (wrap (getId v + 1))) Hs' He' Hc')
      as (m' & next' & Hload & Hsame).
    { apply Forall_app. split.
      - eapply Forall_impl; [|exact Hacc]. intros e Hall.
        inversion Hall; subst. assumption.
      - constructor; [|constructor]. cbn [fst].
        rewrite Forall_map in Hlt. exact Hlt. }
    eexists (_ :: m'), next'. split.
    + rewrite Hload, <- app_assoc. reflexivity.
    + constructor; [|exact Hsame]. cbn [fst snd].
      split; [reflexivity|]. repeat split. cbn [getPrice]. now rewrite Hp.
Qed.

End RoundTrip.

(** X1.  Saving and loading, for the catalogs the file format can carry.
    When no name and no category of the catalog holds a comma or a line feed, and the text of
    each price is read back as a price with the same text, the file
    [saveToFile] writes is loaded by the constructor into a catalog with
    the same keys and the same records, prices compared by their
    two-decimal text. *)
Theorem save_load_roundtrip :
  forall (R : Runtime) (s : WarehouseSystem) (console : string),
    reachable s ->
    Forall (fun e => saves_cleanly (snd e) = true) (inventory s) ->
    exists s',
      WarehouseSystem_new (file (saveToFile s)) console = Ok s'
      /\ same_catalog (inventory s) (inventory s').
Proof.
  intros R s console Hreach Hclean.
  destruct (reachable_invariant s Hreach) as [_ He Hs].
  destruct (load_rows (inventory s) [] 1 Hs He Hclean) as (m' & next' & Hl & Hsame);
    [constructor|].
  unfold saveToFile, set_file. cbn [file].
  unfold WarehouseSystem_new, loadFromFile. cbn [file inventory nextId].
  rewrite csv_of_lines by exact Hclean. cbn [tl].
  rewrite Hl. cbn [bind fst snd app].
  eexists. split; [reflexivity|]. exact Hsame.
Qed.

Lemma save_load_roundtrip_witness :
  let s := run [OpAddItem 100 widget; OpAddItem 101 anvil; OpAddItem 102 bolt]
               fresh_system in
  exists s',
    WarehouseSystem_new (file (saveToFile s)) "" = Ok s'
    /\ same_catalog (inventory s) (inventory s').
Proof.
  intro s.
  apply (save_load_roundtrip decimal_runtime s "").
  - apply reachable_run; [|solve_ints]. now apply (reachable_new None "").
  - repeat constructor; vm_compute; reflexivity.
Defined.

(** * Further properties of the engine *)

(** ** The catalog *)

Lemma map_find_above (k : Z) (m : inventory_t) :
  Forall (fun x => k < x) (map fst m) -> map_find k m = None.
Proof.
  induction m as [|[k' v'] m IH]; simpl; intros Hm; [reflexivity|].
  inversion Hm; subst. destruct (Z.eqb_spec k' k); [lia | auto].
Qed.

Lemma map_find_erase_same (k : Z) (m : inventory_t) :
  keys_sorted m -> map_find k (map_erase k m) = None.
Proof.
  unfold keys_sorted. induction m as [|[k' v'] m IH]; simpl; intros Hs;
    [reflexivity|].
  inversion Hs as [|? ? Hs' Hall]; subst.
  destruct (Z.eqb_spec k' k) as [->|Hne].
  - now apply map_find_above.
  - simpl. destruct (Z.eqb_spec k' k); [congruence | auto].
Qed.

Lemma map_find_erase_other (k k0 : Z) (m : inventory_t) :
  k0 <> k -> map_find k0 (map_erase k m) = map_find k0 m.
Proof.
  intros Hne. induction m as [|[k' v'] m IH]; simpl; [reflexivity|].
  destruct (Z.eqb_spec k' k) as [->|Hk]; simpl.
  - destruct (Z.eqb_spec k k0); [congruence | reflexivity].
  - now rewrite IH.
Qed.

(** X2.  [addItem] stores the record under its id, whether or not the id
    was in use, and leaves every other id alone; it puts one "Add"
    transaction on top of the history, leaves the order queue, the order
    counter and the console alone, and sets [nextId] to the id plus one
    when that is an [int]. *)
Theorem addItem_spec :
  forall (R : Runtime) (now : time_t) (item : InventoryItem)
         (s : WarehouseSystem),
    let s' := addItem now item s in
    findItem (getId item) s' = Some item
    /\ (forall id, id <> getId item -> findItem id s' = findItem id s)
    /\ transactionHistory s'
       = mkTransaction now "Add" (getId item)
           ("Added " ++ getName item ++ " to category " ++ getCategory item)
         :: transactionHistory s
    /\ orderQueue s' = orderQueue s
    /\ nextOrderId s' = nextOrderId s
    /\ cout s' = cout s
    /\ (int_min <= getId item < int_max -> getNextId s' = getId item + 1).
Proof.
  intros R now item s s'. subst s'. unfold addItem, findItem. simpl.
  repeat split.
  - apply map_find_assign_same.
  - intros id Hne. now apply map_find_assign_other.
  - intros Hid. apply wrap_small. unfold in_int, int_min, int_max in *. lia.
Qed.

(** X3.  [removeItem] returns true exactly when the id is in the catalog.
    Afterwards the id is not found, every other id is found as before, and
    the order queue, the category tree, the history and both counters are
    as before: orders and tree entries naming the item stay.  When it
    returns false nothing at all has changed. *)
Theorem removeItem_spec :
  forall (R : Runtime) (id : Z) (s : WarehouseSystem),
    reachable s ->
    let s' := fst (removeItem id s) in
    let removed := snd (removeItem id s) in
    (removed = true <-> findItem id s <> None)
    /\ findItem id s' = None
    /\ (forall id', id' <> id -> findItem id' s' = findItem id' s)
    /\ orderQueue s' = orderQueue s
    /\ categoryRoot s' = categoryRoot s
    /\ transactionHistory s' = transactionHistory s
    /\ nextId s' = nextId s /\ nextOrderId s' = nextOrderId s
    /\ (removed = false -> s' = s).
Proof.
  intros R id s Hreach. destruct (reachable_invariant s Hreach) as [_ _ Hs].
  unfold removeItem, findItem.
  destruct (map_find id (inventory s)) as [old|] eqn:Hf; simpl.
  - split; [split; [discriminate | reflexivity]|].
    split; [now apply map_find_erase_same|].
    split; [intros id' Hne; now apply map_find_erase_other|].
    repeat split. discriminate.
  - split; [split; [discriminate | congruence]|].
    split; [exact Hf|]. repeat split.
Qed.

Lemma removeItem_spec_witness :
  let s := run [OpAddItem 100 bolt; OpCreateOrder 101 101 2 5] fresh_system in
  findItem 2 (fst (removeItem 2 s)) = None
  /\ orderQueue (fst (removeItem 2 s)) = [newOrder 101 1 2 5].
Proof.
  intro s.
  assert (Hreach : reachable s).
  { apply reachable_run; [|solve_ints]. now apply (reachable_new None ""). }
  destruct (removeItem_spec decimal_runtime 2 s Hreach)
    as (_ & Hfind & _ & Hqueue & _).
  split; [exact Hfind | exact Hqueue].
Defined.

Lemma StronglySorted_filter {A} (P : A -> A -> Prop) (f : A -> bool) (l : list A) :
  StronglySorted P l -> StronglySorted P (filter f l).
Proof.
  induction 1 as [|a l Hl IH Hall]; simpl; [constructor|].
  destruct (f a); [|exact IH]. constructor; [exact IH|].
  rewrite Forall_forall in *. intros x Hx. apply Hall.
  apply filter_In in Hx. tauto.
Qed.

(** X4.  [getItemsByCategory] returns exactly the items of the catalog
    whose category string equals the argument (a longer path starting with
    it does not match), in ascending id order. *)
Theorem getItemsByCategory_spec :
  forall (R : Runtime) (category : string) (s : WarehouseSystem),
    reachable s ->
    (forall item,
        In item (getItemsByCategory category s)
        <-> In item (getAllItems s) /\ getCategory item = category)
    /\ StronglySorted (fun a b => getId a < getId b)
         (getItemsByCategory category s).
Proof.
  intros R category s Hreach.
  destruct (reachable_invariant s Hreach) as [_ He Hs].
  unfold getItemsByCategory, getAllItems. split.
  - intros item. rewrite filter_In, String.eqb_eq. reflexivity.
  - apply StronglySorted_filter. now apply snapshot_by_id.
Qed.

Lemma getItemsByCategory_spec_witness :
  let s := run [OpAddItem 100 widget; OpAddItem 101 bolt; OpAddItem 102 nut]
               fresh_system in
  ~ In bolt (getItemsByCategory "Tools" s)
  /\ In widget (getItemsByCategory "Tools" s).
Proof.
  intro s.
  assert (Hreach : reachable s).
  { apply reachable_run; [|solve_ints]. now apply (reachable_new None ""). }
  destruct (getItemsByCategory_spec decimal_runtime "Tools" s Hreach)
    as [Hiff _].
  split.
  - intros Hin. apply Hiff in Hin. destruct Hin as [_ Hcat]. discriminate Hcat.
  - apply Hiff. split; [|reflexivity]. right. right. now left.
Defined.

(** ** The displays *)

Section DisplayProperties.

Context {R : Runtime}.

Lemma lowStock_loop_found (l : list InventoryItem) (s0 : WarehouseSystem) :
  fold_left lowStock_visit l (s0, true)
  = (print_all lowStock_line (filter isLowStock l) s0, true).
Proof.
  revert s0. induction l as [|item l IH]; intros s0; simpl; [reflexivity|].
  destruct (isLowStock item); simpl; now rewrite IH.
Qed.

Lemma lowStock_loop (l : list InventoryItem) (s0 : WarehouseSystem) :
  fold_left lowStock_visit l (s0, false)
  = match filter isLowStock l with
    | [] => (s0, false)
    | low =>
        (print_all lowStock_line low
           (print ("Low Stock Items:" ++ newline) s0), true)
    end.
Proof.
  revert s0. induction l as [|item l IH]; intros s0; simpl; [reflexivity|].
  destruct (isLowStock item); simpl.
  - now rewrite lowStock_loop_found.
  - apply IH.
Qed.

Lemma history_loop_firstn (ctime_s : time_t -> string)
    (stack : list Transaction) :
  forall count limit s,
    0 <= count -> limit <= int_max ->
    history_loop ctime_s stack count limit s
    = print_all (fun t => toString ctime_s t ++ newline)
        (firstn (Z.to_nat (limit - count)) stack) s.
Proof.
  induction stack as [|top stack IH]; intros count limit s Hc Hl; simpl.
  - now rewrite firstn_nil.
  - destruct (Z.ltb_spec count limit) as [Hlt|Hge].
    + rewrite wrap_small by (unfold in_int, int_min, int_max in *; lia).
      rewrite IH by lia.
      replace (Z.to_nat (limit - count))
        with (S (Z.to_nat (limit - (count + 1)))) by lia.
      reflexivity.
    + replace (Z.to_nat (limit - count)) with 0%nat by lia. reflexivity.
Qed.

End DisplayProperties.

(** X5.  [displayLowStockItems] changes the console only.  It prints the
    items whose quantity is at most their minimum stock level, in
    ascending id order under one heading, and the "No items" line when
    there is none. *)
Theorem displayLowStockItems_spec :
  forall (R : Runtime) (s : WarehouseSystem),
    same_members s (displayLowStockItems s)
    /\ cout (displayLowStockItems s)
       = cout s
         ++ match filter (fun item => getQuantity item <=? getMinStockLevel item)
                         (getAllItems s) with
            | [] => "No items are low on stock." ++ newline
            | low => "Low Stock Items:" ++ newline ++ text_of lowStock_line low
            end.
Proof.
  intros R s. unfold displayLowStockItems. rewrite lowStock_loop.
  change (fun item => getQuantity item <=? getMinStockLevel item)
    with isLowStock.
  destruct (filter isLowStock (getAllItems s)) as [|item low].
  - split; [repeat split | reflexivity].
  - split.
    + unfold same_members.
      match goal with
      | |- context [print_all ?f ?l ?s0] =>
          destruct (print_all_fields f l s0) as (-> & -> & -> & -> & -> & -> & ->)
      end.
      repeat split.
    + rewrite print_all_cout. simpl. now rewrite append_assoc.
Qed.

(** X6.  [displayTransactionHistory] changes the console only.  After its
    two heading lines it prints the [limit] transactions on top of the
    history, all of them when there are fewer, none when [limit] is not
    positive, the most recent first. *)
Theorem displayTransactionHistory_spec :
  forall (R : Runtime) (ctime_s : time_t -> string) (limit : Z)
         (s : WarehouseSystem),
    in_int limit ->
    same_members s (displayTransactionHistory ctime_s limit s)
    /\ cout (displayTransactionHistory ctime_s limit s)
       = cout s ++ newline ++ "Recent Transaction History:" ++ newline
         ++ string_of_list_ascii (repeat "-"%char 50) ++ newline
         ++ text_of (fun t => toString ctime_s t ++ newline)
              (firstn (Z.to_nat limit) (transactionHistory s)).
Proof.
  intros R ctime_s limit s Hlimit. unfold displayTransactionHistory.
  rewrite history_loop_firstn
    by (unfold in_int, int_max in *; lia).
  rewrite Z.sub_0_r. split.
  - unfold same_members.
    match goal with
    | |- context [print_all ?f ?l ?s0] =>
        destruct (print_all_fields f l s0) as (-> & -> & -> & -> & -> & -> & ->)
    end.
    repeat split.
  - rewrite print_all_cout. cbn [cout print transactionHistory].
    now rewrite !append_assoc.
Qed.

Lemma displayTransactionHistory_spec_witness :
  let s := run [OpAddItem 100 widget; OpAddItem 101 bolt;
                OpCreateOrder 102 102 5 3; OpProcessNextOrder 103;
                OpAddItem 104 nut] fresh_system in
  cout (displayTransactionHistory (fun t => to_string t ++ newline) 2 s)
  = cout s ++ newline ++ "Recent Transaction History:" ++ newline
    ++ string_of_list_ascii (repeat "-"%char 50) ++ newline
    ++ "104 - Add (Item ID: 3) Added Nut to category Tools/Small" ++ newline
    ++ "103 - Order Processed (Item ID: 5) Processed order #1 for 3 units"
    ++ newline.
Proof.
  intro s.
  apply (displayTransactionHistory_spec decimal_runtime
           (fun t => to_string t ++ newline) 2 s).
  unfold in_int, int_min, int_max. lia.
Defined.

(** ** [nextId] *)

Section NextId.

Context {R : Runtime}.

Lemma load_lines_nextId (lines : list string) :
  forall m next m' next',
    load_lines lines m next = Ok (m', next') ->
    Forall (fun e => fst e < int_max -> fst e < next) m ->
    next <= next'
    /\ Forall (fun e => fst e < int_max -> fst e < next') m'.
Proof.
  induction lines as [|line lines IH]; simpl; intros m next m' next' H Hm.
  - inversion H; subst. split; [lia | exact Hm].
  - destruct (parse_line line) as [item|] eqn:Hp; simpl in H; [|discriminate].
    destruct (parse_line_ok _ _ Hp) as (Hid & _).
    destruct (IH _ _ _ _ H) as [Hle Hall].
    + apply Forall_map_assign.
      * simpl. intros Hlt. rewrite wrap_small; [lia|].
        unfold in_int, int_min, int_max in *. lia.
      * eapply Forall_impl; [|exact Hm]. simpl. intros e He Hlt.
        specialize (He Hlt). lia.
    + split; [lia | exact Hall].
Qed.

End NextId.

(** X8.  After the constructor has loaded a file, [nextId] is at least 1
    and above every id of the catalog, the id [INT_MAX] apart, for which
    there is no next [int]. *)
Theorem loadFromFile_nextId :
  forall (R : Runtime) (disk : option string) (console : string)
         (s : WarehouseSystem),
    WarehouseSystem_new disk console = Ok s ->
    1 <= getNextId s
    /\ (forall id item,
          findItem id s = Some item -> id < int_max -> id < getNextId s).
Proof.
  intros R disk console s. unfold WarehouseSystem_new, loadFromFile. simpl.
  assert (Hfind : forall (m : inventory_t) next,
             Forall (fun e => fst e < int_max -> fst e < next) m ->
             forall id item, map_find id m = Some item ->
                             id < int_max -> id < next).
  { intros m next Hm id item. induction m as [|[k v] m IH]; simpl;
      [discriminate|].
    inversion Hm; subst. destruct (Z.eqb_spec k id); [subst; auto | auto]. }
  destruct disk as [text|]; simpl.
  - destruct (load_lines _ [] 1) as [[m next]|] eqn:Hl; simpl; [|discriminate].
    intros [= <-]. unfold getNextId, findItem. simpl.
    destruct (load_lines_nextId _ _ _ _ _ Hl) as [Hle Hall]; [constructor|].
    split; [exact Hle | now apply Hfind].
  - intros [= <-]. unfold getNextId, findItem. simpl. split; [lia | discriminate].
Qed.

Lemma loadFromFile_nextId_witness :
  let text := csv_header ++ csv_row widget ++ csv_row bolt in
  let s := mkSystem [(2, bolt); (5, widget)] 6 [] [] (Node "Root" [] []) 1
                    (Some text) "" in
  1 <= getNextId s
  /\ (forall id item,
        findItem id s = Some item -> id < int_max -> id < getNextId s).
Proof.
  intros text s.
  apply (loadFromFile_nextId decimal_runtime (Some text) "" s).
  vm_compute. reflexivity.
Defined.

(** ** New items through the menu *)

Section Menu.

Context {R : Runtime}.

Lemma map_find_Forall_key (P : Z -> Prop) (k : Z) (v : InventoryItem)
    (m : inventory_t) :
  Forall (fun e => P (fst e)) m -> map_find k m = Some v -> P k.
Proof.
  induction m as [|[k' v'] m IH]; simpl; intros Hm Hf; [discriminate|].
  inversion Hm; subst. destruct (Z.eqb_spec k' k); [subst; auto | auto].
Qed.

Lemma map_find_absent (k : Z) (m : inventory_t) :
  Forall (fun e => fst e <> k) m -> map_find k m = None.
Proof.
  induction m as [|[k' v'] m IH]; simpl; intros Hm; [reflexivity|].
  inversion Hm; subst. simpl in *.
  destruct (Z.eqb_spec k' k); [contradiction | auto].
Qed.

Lemma displayLowStockItems_same s : same_members s (displayLowStockItems s).
Proof.
  unfold displayLowStockItems. rewrite lowStock_loop.
  destruct (filter isLowStock (getAllItems s)); [repeat split|].
  unfold same_members.
  match goal with
  | |- context [print_all ?f ?l ?s0] =>
      destruct (print_all_fields f l s0) as (-> & -> & -> & -> & -> & -> & ->)
  end.
  repeat split.
Qed.

Lemma main_case_ids s choice :
  ids_below s -> int_min <= nextId s < int_max ->
  ids_below (main_case s choice)
  /\ nextId s <= nextId (main_case s choice) <= nextId s + 1.
Proof.
  unfold ids_below. intros Hb Hn.
  destruct choice as [now nm cat q p ms|id|id nm cat q p ms| | |
                      |otime now itemId q|now|]; simpl; unfold getNextId.
  - rewrite wrap_small by (unfold in_int, int_min, int_max in *; lia).
    split; [|lia].
    apply Forall_map_assign; [simpl; lia|].
    eapply Forall_impl; [|exact Hb]. simpl. intros; lia.
  - unfold removeItem. simpl.
    destruct (map_find id (inventory s)); simpl; (split; [|lia]);
      [now apply Forall_map_erase | exact Hb].
  - unfold updateItem. simpl.
    destruct (map_find id (inventory s)) eqn:Hf; simpl; (split; [|lia]);
      [|exact Hb].
    apply Forall_map_assign; [|exact Hb]. simpl.
    exact (map_find_Forall_key (fun k => k < nextId s) _ _ _ Hb Hf).
  - destruct (displayLowStockItems_same s) as (-> & -> & _). split; [exact Hb | lia].
  - destruct (sortByName_same s) as (-> & -> & _). split; [exact Hb | lia].
  - destruct (sortByQuantity_same s) as (-> & -> & _). split; [exact Hb | lia].
  - unfold createOrder, findItem. simpl.
    destruct (map_find itemId (inventory s)); simpl; [|split; [exact Hb | lia]].
    destruct (0 <? q); simpl; (split; [exact Hb | lia]).
  - unfold processNextOrder, findItem.
    destruct (orderQueue s) as [|order rest]; simpl; [split; [exact Hb | lia]|].
    destruct (map_find (getItemId order) (inventory s)) as [item|]; simpl;
      [|split; [exact Hb | lia]].
    destruct (getOrderQuantity order <=? getQuantity item); simpl;
      (split; [|lia]); [|exact Hb].
    apply Forall_map_modify; [auto | exact Hb].
  - destruct (displayOrderQueue_same s) as (-> & -> & _). split; [exact Hb | lia].
Qed.

Lemma main_loop_ids choices :
  forall s,
    ids_below s -> int_min <= nextId s ->
    nextId s + Z.of_nat (List.length choices) <= int_max ->
    ids_below (main_loop choices s)
    /\ nextId s <= nextId (main_loop choices s)
       <= nextId s + Z.of_nat (List.length choices).
Proof.
  unfold main_loop. induction choices as [|c choices IH]; intros s Hb Hlo Hhi.
  - simpl. split; [exact Hb | lia].
  - cbn [fold_left].
    change (List.length (c :: choices)) with (S (List.length choices)) in *.
    rewrite Nat2Z.inj_succ in *.
    destruct (main_case_ids s c Hb) as [Hb' Hn']; [lia|].
    destruct (IH (main_case s c) Hb') as [Hb'' Hn'']; [lia | lia|].
    split; [exact Hb'' | lia].
Qed.

End Menu.

(** X9.  Through the menu a new item takes its id from [getNextId], so
    [nextId] stays above every id of the catalog: when that holds at the
    start and the choices made are too few for the counter to run over,
    it holds after them, the id the next new item gets is not in use, and
    adding that item leaves every stored item as it is. *)
Theorem menu_new_items_get_free_ids :
  forall (R : Runtime) (choices : list Choice) (s : WarehouseSystem),
    ids_below s ->
    int_min <= nextId s ->
    nextId s + Z.of_nat (List.length choices) < int_max ->
    let s' := main_loop choices s in
    ids_below s'
    /\ findItem (getNextId s') s' = None
    /\ (forall now name category quantity price minStockLevel id item,
          findItem id s' = Some item ->
          findItem id (main_case s' (AddNewItem now name category quantity
                                                price minStockLevel))
          = Some item).
Proof.
  intros R choices s Hb Hlo Hhi.
  destruct (main_loop_ids choices s Hb Hlo) as [Hb' Hn']; [lia|].
  cbv zeta. generalize dependent (main_loop choices s). intros s' Hb' Hn'.
  assert (Hfree : findItem (getNextId s') s' = None).
  { unfold findItem, getNextId. apply map_find_absent.
    unfold ids_below in Hb'.
    eapply Forall_impl; [|exact Hb']. simpl. intros; lia. }
  split; [exact Hb'|]. split; [exact Hfree|].
  intros now name category quantity price minStockLevel id item Hf.
  unfold findItem in *. simpl.
  rewrite map_find_assign_other; [exact Hf|].
  intros ->. unfold getNextId in *. congruence.
Qed.

Lemma menu_new_items_get_free_ids_witness :
  let choices := [AddNewItem 100 "Widget" "Tools" 10 2.5%float 3;
                  AddNewItem 101 "Bolt" "Tools/Small" 2 0.25%float 1;
                  RemoveItem 1;
                  AddNewItem 102 "Nut" "Tools/Small" 2 0.125%float 1] in
  findItem (getNextId (main_loop choices fresh_system))
           (main_loop choices fresh_system) = None.
Proof.
  intro choices.
  assert (Hb : ids_below fresh_system) by constructor.
  assert (Hlo : int_min <= nextId fresh_system)
    by (unfold int_min; simpl; lia).
  assert (Hhi : nextId fresh_system + Z.of_nat (List.length choices) < int_max)
    by (unfold int_max; simpl; lia).
  destruct (menu_new_items_get_free_ids decimal_runtime choices fresh_system
              Hb Hlo Hhi) as (_ & Hfree & _).
  exact Hfree.
Defined.

(** ** More on the order queue *)

(** X10.  [processNextOrder] on an empty queue only prints that there is
    nothing to process.  On any queue it leaves the tail of the queue in
    order, followed or not by the former front order; it adds and removes
    no catalog entry and touches neither counter nor the category tree. *)
Theorem processNextOrder_frame :
  forall (R : Runtime) (now : time_t) (s : WarehouseSystem),
    let s' := processNextOrder now s in
    (orderQueue s = [] -> s' = print ("No orders to process!" ++ newline) s)
    /\ (forall order rest,
          orderQueue s = order :: rest ->
          orderQueue s' = rest \/ orderQueue s' = (rest ++ [order])%list)
    /\ map fst (inventory s') = map fst (inventory s)
    /\ nextId s' = nextId s
    /\ nextOrderId s' = nextOrderId s
    /\ categoryRoot s' = categoryRoot s.
Proof.
  intros R now s s'. subst s'. unfold processNextOrder, findItem.
  destruct (orderQueue s) as [|order rest] eqn:Hq.
  - repeat split. intros order rest [=].
  - simpl.
    destruct (map_find (getItemId order) (inventory s)) as [item|].
    + destruct (getOrderQuantity order <=? getQuantity item); simpl.
      * split; [discriminate|]. split; [intros ? ? [= <- <-]; now left|].
        rewrite map_modify_keys. repeat split.
      * split; [discriminate|]. split; [intros ? ? [= <- <-]; now right|].
        repeat split.
    + split; [discriminate|]. split; [intros ? ? [= <- <-]; now left|].
      repeat split.
Qed.

Section OrderRuns.

Context {R : Runtime}.

Lemma processNextOrder_starved now s order rest :
  orderQueue s = order :: rest ->
  starved (inventory s) order ->
  processNextOrder now s
  = set_orderQueue (rest ++ [order])%list
      (print ("Insufficient stock for order #"
              ++ to_string (getOrderId order) ++ "!" ++ newline) s).
Proof.
  intros Hq (item & Hf & Hlt). unfold processNextOrder, findItem. rewrite Hq.
  simpl. rewrite Hf.
  destruct (Z.leb_spec (getOrderQuantity order) (getQuantity item)); [lia|].
  reflexivity.
Qed.

Lemma starved_rotation (front : list Order) :
  forall nows back s,
    orderQueue s = (front ++ back)%list ->
    List.length nows = List.length front ->
    Forall (starved (inventory s)) front ->
    orderQueue (run (map OpProcessNextOrder nows) s) = (back ++ front)%list
    /\ inventory (run (map OpProcessNextOrder nows) s) = inventory s
    /\ transactionHistory (run (map OpProcessNextOrder nows) s)
       = transactionHistory s
    /\ file (run (map OpProcessNextOrder nows) s) = file s
    /\ nextOrderId (run (map OpProcessNextOrder nows) s) = nextOrderId s.
Proof.
  unfold run.
  induction front as [|o front IH]; intros nows back s Hq Hlen Hst.
  - destruct nows; [|discriminate]. simpl in *. rewrite app_nil_r.
    repeat split. exact Hq.
  - destruct nows as [|now nows]; [discriminate|]. simpl in Hlen.
    inversion Hst as [|? ? Ho Hst']; subst.
    cbn [map fold_left step].
    rewrite (processNextOrder_starved now s o (front ++ back)%list Hq Ho).
    match goal with
    | |- context [fold_left step _ ?s1] =>
        destruct (IH nows (back ++ [o])%list s1) as (H1 & H2 & H3 & H4 & H5)
    end.
    + simpl. now rewrite app_assoc.
    + lia.
    + exact Hst'.
    + rewrite H1, H2, H3, H4, H5, <- app_assoc. repeat split.
Qed.

End OrderRuns.

(** X11.  When every queued order names an item of the catalog with too
    little stock, processing as many orders as the queue holds brings the
    queue back to the order it had, with the catalog, the history and the
    file as they were: nothing is lost and nothing advances until stock
    arrives. *)
Theorem starved_queue_cycles :
  forall (R : Runtime) (nows : list time_t) (s : WarehouseSystem),
    Forall (starved (inventory s)) (orderQueue s) ->
    List.length nows = List.length (orderQueue s) ->
    let s' := run (map OpProcessNextOrder nows) s in
    orderQueue s' = orderQueue s
    /\ inventory s' = inventory s
    /\ transactionHistory s' = transactionHistory s
    /\ file s' = file s.
Proof.
  intros R nows s Hst Hlen s'. subst s'.
  destruct (starved_rotation (orderQueue s) nows [] s) as (H1 & H2 & H3 & H4 & _).
  - now rewrite app_nil_r.
  - exact Hlen.
  - exact Hst.
  - repeat split; assumption.
Qed.

Lemma starved_queue_cycles_witness :
  let s := run [OpAddItem 100 bolt; OpCreateOrder 101 101 2 5;
                OpCreateOrder 102 102 2 7] fresh_system in
  orderQueue (run (map OpProcessNextOrder [103; 104]) s) = orderQueue s.
Proof.
  intro s.
  assert (Hst : Forall (starved (inventory s)) (orderQueue s)).
  { repeat constructor; exists bolt; (split; [reflexivity | simpl; lia]). }
  assert (Hlen : List.length [103; 104] = List.length (orderQueue s))
    by reflexivity.
  destruct (starved_queue_cycles decimal_runtime [103; 104] s Hst Hlen)
    as (Hq & _).
  exact Hq.
Defined.

(** X12.  An order placed on an empty queue for an item with enough stock
    is fulfilled by the next [processNextOrder]: the record of the item
    has its quantity lowered by exactly the ordered quantity, every other
    item is as before, the queue is empty again, and the history gains
    "Order Created" and, on top, "Order Processed", which names the id the
    order was given. *)
Theorem createOrder_then_processNextOrder :
  forall (R : Runtime) (orderTime now1 now2 : time_t) (itemId quantity : Z)
         (item : InventoryItem) (s : WarehouseSystem),
    reachable s ->
    orderQueue s = [] ->
    findItem itemId s = Some item ->
    0 < quantity <= getQuantity item ->
    let s' := processNextOrder now2
                (createOrder orderTime now1 itemId quantity s) in
    findItem itemId s'
      = Some (mkItem (getId item) (getName item) (getCategory item)
                     (getQuantity item - quantity)
                     (getPrice item) (getMinStockLevel item))
    /\ option_map getQuantity (findItem itemId s')
       = Some (getQuantity item - quantity)
    /\ (forall id, id <> itemId -> findItem id s' = findItem id s)
    /\ orderQueue s' = []
    /\ transactionHistory s'
       = mkTransaction now2 "Order Processed" itemId
           ("Processed order #" ++ to_string (nextOrderId s) ++ " for "
            ++ to_string quantity ++ " units")
         :: mkTransaction now1 "Order Created" itemId
              ("Ordered " ++ to_string quantity ++ " units")
         :: transactionHistory s.
Proof.
  intros R otime now1 now2 itemId q item s Hreach Hq Hf [Hpos Hle] s'.
  destruct (reachable_invariant s Hreach) as [_ He _].
  unfold findItem in Hf.
  destruct (map_find_entry_ok _ _ _ He Hf) as (_ & Hin & _).
  assert (Hw : wrap (getQuantity item - q) = getQuantity item - q).
  { apply wrap_small. unfold in_int, int_min, int_max in *. lia. }
  subst s'. unfold createOrder, findItem. rewrite Hf.
  destruct (Z.ltb_spec 0 q); [|lia].
  unfold processNextOrder, findItem. simpl. rewrite Hq. simpl. rewrite Hf.
  destruct (Z.leb_spec q (getQuantity item)); [|lia].
  simpl. rewrite Hw.
  assert (Hnew : map_find itemId
                   (map_modify itemId (setQuantity (getQuantity item - q))
                      (inventory s))
                 = Some (mkItem (getId item) (getName item) (getCategory item)
                                (getQuantity item - q)
                                (getPrice item) (getMinStockLevel item))).
  { now rewrite (map_find_modify_same _ _ _ _ Hf). }
  repeat split.
  - exact Hnew.
  - now rewrite Hnew.
  - intros id Hne. now apply map_find_modify_other.
Qed.

Lemma createOrder_then_processNextOrder_witness :
  let s := run [OpAddItem 100 widget] fresh_system in
  findItem 5 (processNextOrder 103 (createOrder 101 102 5 3 s))
    = Some (mkItem 5 "Widget" "Tools" 7 2.5%float 3)
  /\ option_map getQuantity
       (findItem 5 (processNextOrder 103 (createOrder 101 102 5 3 s)))
     = Some 7.
Proof.
  intro s.
  assert (Hreach : reachable s).
  { apply reachable_run; [|solve_ints]. now apply (reachable_new None ""). }
  assert (Hq : orderQueue s = []) by reflexivity.
  assert (Hf : findItem 5 s = Some widget) by reflexivity.
  assert (Hle : 0 < 3 <= getQuantity widget) by (simpl; lia).
  destruct (createOrder_then_processNextOrder decimal_runtime 101 102 103 5 3
              widget s Hreach Hq Hf Hle) as (Hitem & Hqty & _).
  split; [exact Hitem | exact Hqty].
Defined.

(** X13.  Fulfilling orders never takes stock below zero: in a state
    where no quantity of the catalog is negative, none is after
    [processNextOrder]. *)
Theorem processNextOrder_stock_not_negative :
  forall (R : Runtime) (now : time_t) (s : WarehouseSystem),
    reachable s ->
    Forall (fun e => 0 <= getQuantity (snd e)) (inventory s) ->
    Forall (fun e => 0 <= getQuantity (snd e))
           (inventory (processNextOrder now s)).
Proof.
  intros R now s Hreach Hnn.
  destruct (reachable_invariant s Hreach) as [Ho He _].
  unfold processNextOrder, findItem.
  destruct (orderQueue s) as [|order rest]; [exact Hnn|]. simpl.
  inversion Ho as [|? ? [[Hpos Hmax] _] _]; subst.
  destruct (map_find (getItemId order) (inventory s)) as [item|] eqn:Hf;
    [|exact Hnn].
  destruct (Z.leb_spec (getOrderQuantity order) (getQuantity item));
    [|exact Hnn].
  simpl. apply Forall_map_modify; [|exact Hnn]. simpl. intros v _.
  destruct (map_find_entry_ok _ _ _ He Hf) as (_ & Hin & _).
  rewrite wrap_small; [lia|]. unfold in_int, int_min, int_max in *. lia.
Qed.

Lemma processNextOrder_stock_not_negative_witness :
  let s := run [OpAddItem 100 widget; OpCreateOrder 101 101 5 10] fresh_system in
  Forall (fun e => 0 <= getQuantity (snd e))
         (inventory (processNextOrder 102 s)).
Proof.
  intro s.
  assert (Hreach : reachable s).
  { apply reachable_run; [|solve_ints]. now apply (reachable_new None ""). }
  assert (Hnn : Forall (fun e => 0 <= getQuantity (snd e)) (inventory s))
    by (repeat constructor; simpl; lia).
  exact (processNextOrder_stock_not_negative decimal_runtime 102 s Hreach Hnn).
Defined.

(** ** The category tree *)

Section CategoryTree.

Variable f : CategoryNode -> CategoryNode.
Hypothesis f_name : forall n, nodeName (f n) = nodeName n.

(** The children of a node after the walk went through it. *)
Fixpoint first_named (seg : string) (rest : list string)
    (cs : list CategoryNode) : list CategoryNode :=
  match cs with
  | [] => [walkOrCreate rest f (Node seg [] [])]
  | c :: cs' =>
      if String.eqb (nodeName c) seg
      then walkOrCreate rest f c :: cs'
      else c :: first_named seg rest cs'
  end.

Lemma walkOrCreate_cons seg rest nm cs ids :
  walkOrCreate (seg :: rest) f (Node nm cs ids)
  = Node nm (first_named seg rest cs) ids.
Proof.
  simpl. f_equal. induction cs as [|c cs IH]; simpl; [reflexivity|].
  destruct (String.eqb (nodeName c) seg); [reflexivity | now rewrite IH].
Qed.

Lemma walkOrCreate_name path n :
  nodeName (walkOrCreate path f n) = nodeName n.
Proof.
  destruct path as [|seg rest]; [apply f_name|].
  destruct n as [nm cs ids]. now rewrite walkOrCreate_cons.
Qed.

(** The node the pointer returned by [findOrCreateCategory] designates,
    before the caller changes it: the one found, or a new leaf named by
    the last segment. *)
Definition designated (path : list string) (n : CategoryNode) : CategoryNode :=
  match findCategory path n with
  | Some node => node
  | None => Node (last path "") [] []
  end.

Lemma designated_leaf seg rest :
  designated rest (Node seg [] []) = Node (last (seg :: rest) "") [] [].
Proof.
  unfold designated. destruct rest as [|seg' rest]; reflexivity.
Qed.

Lemma findCategory_walkOrCreate path :
  forall n,
    findCategory path (walkOrCreate path f n) = Some (f (designated path n)).
Proof.
  induction path as [|seg rest IH]; intros n; [reflexivity|].
  destruct n as [nm cs ids]. rewrite walkOrCreate_cons.
  unfold designated. cbn [findCategory children].
  induction cs as [|c cs IHcs]; cbn [first_named find].
  - rewrite walkOrCreate_name. cbn [nodeName]. rewrite String.eqb_refl.
    rewrite IH, designated_leaf. reflexivity.
  - destruct (String.eqb (nodeName c) seg) eqn:Hc; cbn [find].
    + rewrite walkOrCreate_name, Hc, IH. unfold designated.
      destruct (findCategory rest c) eqn:Hfc; [reflexivity|].
      destruct rest; [discriminate | reflexivity].
    + rewrite Hc. exact IHcs.
Qed.

End CategoryTree.

(** X14.  After [addItem] the path of the item's category, split at the
    slashes, leads from the root to a node whose id list is the list it
    had before (empty when the node has just been created) followed by
    the item's id; the same id added twice is listed twice. *)
Theorem addItem_records_category :
  forall (R : Runtime) (now : time_t) (item : InventoryItem)
         (s : WarehouseSystem),
    let path := getline_loop "/" (getCategory item) in
    exists node,
      findCategory path (categoryRoot (addItem now item s)) = Some node
      /\ itemIds node
         = (itemIds (designated path (categoryRoot s)) ++ [getId item])%list
      /\ nodeName node = nodeName (designated path (categoryRoot s)).
Proof.
  intros R now item s path.
  exists (push_itemId (getId item) (designated path (categoryRoot s))).
  split; [|split].
  - unfold addItem. cbn [categoryRoot saveToFile set_file addTransaction
                         set_transactionHistory set_categoryRoot].
    unfold findOrCreateCategory. fold path.
    apply findCategory_walkOrCreate. intros [nm cs ids]. reflexivity.
  - destruct (designated path (categoryRoot s)). reflexivity.
  - destruct (designated path (categoryRoot s)). reflexivity.
Qed.

Section TreeFrame.

Context {R : Runtime}.

Lemma step_categoryRoot s op :
  (forall now item, op <> OpAddItem now item) ->
  categoryRoot (step s op) = categoryRoot s.
Proof.
  intros Hop. destruct op as [now item|id|item| | |otime now itemId q|now|]; simpl.
  - now contradiction (Hop now item).
  - unfold removeItem. now destruct (map_find id (inventory s)).
  - unfold updateItem. now destruct (map_find (getId item) (inventory s)).
  - apply sortByName_same.
  - apply sortByQuantity_same.
  - unfold createOrder. destruct (findItem itemId s); [|reflexivity].
    now destruct (0 <? q).
  - unfold processNextOrder. destruct (orderQueue s) as [|order rest];
      [reflexivity|].
    simpl. destruct (findItem (getItemId order) _) as [item|]; [|reflexivity].
    now destruct (getOrderQuantity order <=? getQuantity item).
  - apply displayOrderQueue_same.
Qed.

End TreeFrame.

(** X15.  Only [addItem] writes the category tree.  Calls other than
    [addItem] leave it as it is, so after an item is removed, or updated
    to another category, its id is still listed under the category it was
    added with. *)
Theorem category_tree_only_grows_by_addItem :
  forall (R : Runtime) (ops : list Op) (s : WarehouseSystem),
    Forall (fun op => forall now item, op <> OpAddItem now item) ops ->
    categoryRoot (run ops s) = categoryRoot s.
Proof.
  intros R ops. unfold run.
  induction ops as [|op ops IH]; intros s Hops; simpl; [reflexivity|].
  inversion Hops; subst. rewrite IH by assumption.
  now apply step_categoryRoot.
Qed.

Lemma category_tree_only_grows_by_addItem_witness :
  let s := run [OpAddItem 100 bolt] fresh_system in
  categoryRoot (run [OpRemoveItem 2; OpUpdateItem widget] s)
  = Node "Root" [Node "Tools" [Node "Small" [] [2]] []] [].
Proof.
  intro s.
  assert (Hops : Forall (fun op => forall now item, op <> OpAddItem now item)
                        [OpRemoveItem 2; OpUpdateItem widget])
    by (repeat constructor; discriminate).
  rewrite (category_tree_only_grows_by_addItem decimal_runtime _ s Hops).
  reflexivity.
Defined.

(** ** Rows the file format cannot carry *)

Section Rows.

Context {R : Runtime}.

Lemma getline_bad (old : string) (rest : string) :
  getline "," old (mkStream rest false) = (old, mkStream rest false).
Proof. reflexivity. Qed.

Lemma load_first_lines (header : string) (text : string) :
  free_of nl header = true ->
  tl (getline_loop nl (header ++ String nl text)) = getline_loop nl text.
Proof.
  intros Hh. unfold getline_loop.
  now rewrite getline_loop_from_line.
Qed.

End Rows.

(** X16.  A comma in a name is not escaped by [saveToFile], and the row
    does not read back as the record: whenever the row of a record whose
    name holds a comma is accepted by the loading loop, the name it gives
    is the part before the first comma. *)
Theorem comma_cuts_name :
  forall (R : Runtime) (item item' : InventoryItem) (before after : string),
    in_int (getId item) ->
    getName item = before ++ "," ++ after ->
    free_of "," before = true ->
    parse_line (csv_line item) = Ok item' ->
    getId item' = getId item
    /\ getName item' = before
    /\ getName item' <> getName item.
Proof.
  intros R item item' before after Hid Hname Hbefore.
  unfold parse_line, csv_line. rewrite Hname.
  rewrite getline_field by (apply field_clean_comma, to_string_clean).
  rewrite stoi_to_string by exact Hid. cbn [bind].
  rewrite !append_assoc.
  rewrite getline_field by exact Hbefore.
  repeat match goal with
         | |- context [getline ?d ?o ?i] => destruct (getline d o i)
         | |- context [bind ?r _] =>
             destruct r; cbn [bind]; [|discriminate]
         end.
  intros [= <-]. cbn [getId getName]. repeat split.
  intros Heq. rewrite <- (append_empty_r before) in Heq at 1.
  apply append_cancel_l in Heq. discriminate.
Qed.

Lemma comma_cuts_name_witness :
  getName (mkItem 1 "A" "B" 7 5%float 1) = "A"
  /\ getName (mkItem 1 "A" "B" 7 5%float 1) <> "A,B".
Proof.
  assert (Hid : in_int (getId (mkItem 1 "A,B" "7" 5 1.5%float 2)))
    by (unfold in_int, int_min, int_max; simpl; lia).
  assert (Hparse : parse_line (csv_line (mkItem 1 "A,B" "7" 5 1.5%float 2))
                   = Ok (mkItem 1 "A" "B" 7 5%float 1))
    by (vm_compute; reflexivity).
  destruct (comma_cuts_name decimal_runtime
              (mkItem 1 "A,B" "7" 5 1.5%float 2)
              (mkItem 1 "A" "B" 7 5%float 1) "A" "B"
              Hid eq_refl eq_refl Hparse) as (_ & Hn & Hne).
  split; [exact Hn | exact Hne].
Defined.

(** X17.  The constructor drops the first line of the file whatever it
    holds: files that differ in their first line only load the same, and
    a file that holds one line or nothing gives the empty catalog with
    [nextId] 1. *)
Theorem loadFromFile_skips_header :
  forall (R : Runtime) (header header' rows console : string),
    free_of nl header = true ->
    free_of nl header' = true ->
    WarehouseSystem_new (Some (header ++ String nl rows)) console
    = match WarehouseSystem_new (Some (header' ++ String nl rows)) console with
      | Ok s => Ok (set_file (Some (header ++ String nl rows)) s)
      | Throw e => Throw e
      end
    /\ WarehouseSystem_new (Some header) console
       = Ok (mkSystem [] 1 [] [] (Node "Root" [] []) 1 (Some header) console).
Proof.
  intros R header header' rows console Hh Hh'.
  unfold WarehouseSystem_new, loadFromFile. cbn [file inventory nextId].
  rewrite !load_first_lines by assumption. split.
  - destruct (load_lines (getline_loop nl rows) [] 1) as [[m next]|];
      reflexivity.
  - assert (Hl : tl (getline_loop nl header) = []).
    { unfold getline_loop. generalize "" at 1. clear Hh'.
      induction header as [|c h IH]; intros acc; simpl.
      - now destruct (String.eqb acc "").
      - simpl in Hh. rewrite andb_true_iff, negb_true_iff in Hh.
        destruct Hh as [-> Hh]. now apply IH. }
    rewrite Hl. reflexivity.
Qed.

Lemma loadFromFile_skips_header_witness :
  WarehouseSystem_new (Some "id;name") ""
  = Ok (mkSystem [] 1 [] [] (Node "Root" [] []) 1 (Some "id;name") "").
Proof.
  apply (loadFromFile_skips_header decimal_runtime "id;name" "x" "" "");
    reflexivity.
Defined.

(** X18.  A row that holds a single number is accepted: once the row is
    exhausted a read leaves its variable as it was, so the number serves
    as id, quantity, price and minimum stock level, with an empty name and
    category. *)
Theorem single_field_row :
  forall (R : Runtime) (n : Z),
    in_int n ->
    parse_line (to_string n)
    = bind (stod (to_string n))
           (fun price => Ok (mkItem n "" "" n price n)).
Proof.
  intros R n Hn. unfold parse_line.
  rewrite getline_last by (apply field_clean_comma, to_string_clean).
  rewrite stoi_to_string by exact Hn. cbn [bind].
  rewrite !getline_bad. rewrite stoi_to_string by exact Hn. cbn [bind].
  destruct (stod (to_string n)); cbn [bind]; reflexivity.
Qed.

Lemma single_field_row_witness :
  parse_line "7" = Ok (mkItem 7 "" "" 7 7%float 7).
Proof.
  assert (Hn : in_int 7) by (unfold in_int, int_min, int_max; lia).
  exact (single_field_row decimal_runtime 7 Hn).
Defined.

(** ** What every state of an object satisfies *)

Lemma map_find_entry_id (k : Z) (m : inventory_t) (v : InventoryItem) :
  Forall entry_ok m -> map_find k m = Some v -> getId v = k.
Proof.
  induction m as [|[k' v'] m IH]; simpl; intros Hm Hf; [discriminate|].
  inversion Hm as [|? ? [Hk _] Hm']; subst. simpl in Hk.
  destruct (Z.eqb_spec k' k); [injection Hf as <-; congruence | auto].
Qed.

(** X19.  In every state of an object the catalog lists its ids in
    strictly ascending order, an id is found with a record carrying that
    same id, and every queued order has a positive quantity. *)
Theorem engine_invariant :
  forall (R : Runtime) (s : WarehouseSystem),
    reachable s ->
    StronglySorted Z.lt (map getId (getAllItems s))
    /\ (forall id item, findItem id s = Some item -> getId item = id)
    /\ Forall (fun o => 0 < getOrderQuantity o) (orderQueue s).
Proof.
  intros R s Hreach. destruct (reachable_invariant s Hreach) as [Ho He Hs].
  split; [|split].
  - unfold getAllItems. rewrite map_map.
    assert (Heq : map (fun e => getId (snd e)) (inventory s)
                  = map fst (inventory s)).
    { apply map_ext_in. intros e Hin. rewrite Forall_forall in He.
      symmetry. apply (He e Hin). }
    rewrite Heq. exact Hs.
  - unfold findItem. intros id item. now apply map_find_entry_id.
  - eapply Forall_impl; [|exact Ho]. intros o [[Hpos _] _]. exact Hpos.
Qed.

Lemma engine_invariant_witness :
  let s := run [OpAddItem 100 widget; OpAddItem 101 bolt;
                OpCreateOrder 102 102 5 3; OpUpdateItem (setQuantity 1 bolt)]
               fresh_system in
  StronglySorted Z.lt (map getId (getAllItems s)).
Proof.
  intro s.
  assert (Hreach : reachable s).
  { apply reachable_run; [|solve_ints]. now apply (reachable_new None ""). }
  destruct (engine_invariant decimal_runtime s Hreach) as (Hsorted & _).
  exact Hsorted.
Defined.

(** ** The queue display *)

(** X20.  [displayOrderQueue] changes the console only.  It prints the
    queued orders front first, each with the name its item has in the
    catalog at that moment; for an order whose item has been removed it
    prints "Unknown" in place of the name. *)
Theorem displayOrderQueue_spec :
  forall (R : Runtime) (id : Z) (s : WarehouseSystem),
    reachable s ->
    same_members s (displayOrderQueue s)
    /\ (orderQueue s = [] ->
        cout (displayOrderQueue s) = cout s ++ "No pending orders." ++ newline)
    /\ (orderQueue s <> [] ->
        cout (displayOrderQueue s)
        = cout s ++ newline ++ "Pending Orders:" ++ newline
          ++ string_of_list_ascii (repeat "-"%char 50) ++ newline
          ++ text_of (displayOrderQueue_entry s) (orderQueue s))
    /\ (forall order,
          getItemId order = id ->
          displayOrderQueue_entry (fst (removeItem id s)) order
          = "Order #" ++ to_string (getOrderId order) ++ ":" ++ newline
            ++ "  Item: Unknown (ID: " ++ to_string id ++ ")" ++ newline
            ++ "  Quantity: " ++ to_string (getOrderQuantity order) ++ newline
            ++ "  Status: " ++ getStatus order ++ newline ++ newline).
Proof.
  intros R id s Hreach. destruct (reachable_invariant s Hreach) as [_ _ Hs].
  split; [apply displayOrderQueue_same|].
  unfold displayOrderQueue. split; [|split].
  - intros ->. reflexivity.
  - destruct (orderQueue s) as [|o q]; [congruence|]. intros _.
    rewrite print_all_cout. cbn [cout print]. now rewrite !append_assoc.
  - intros order <-. unfold displayOrderQueue_entry, removeItem.
    destruct (map_find (getItemId order) (inventory s)) eqn:Hf;
      cbn [fst inventory saveToFile set_file set_inventory].
    + rewrite map_find_erase_same by exact Hs. reflexivity.
    + rewrite Hf. reflexivity.
Qed.

Lemma displayOrderQueue_spec_witness :
  let s := run [OpAddItem 100 bolt; OpCreateOrder 101 101 2 5] fresh_system in
  displayOrderQueue_entry (fst (removeItem 2 s)) (newOrder 101 1 2 5)
  = "Order #1:" ++ newline ++ "  Item: Unknown (ID: 2)" ++ newline
    ++ "  Quantity: 5" ++ newline ++ "  Status: Pending" ++ newline
    ++ newline.
Proof.
  intro s.
  assert (Hreach : reachable s).
  { apply reachable_run; [|solve_ints]. now apply (reachable_new None ""). }
  destruct (displayOrderQueue_spec decimal_runtime 2 s Hreach)
    as (_ & _ & _ & Hentry).
  exact (Hentry (newOrder 101 1 2 5) eq_refl).
Defined.

Lemma addItem_spec_witness :
  getNextId (addItem 100 widget fresh_system) = 6
  /\ findItem 5 (addItem 100 widget fresh_system) = Some widget.
Proof.
  destruct (addItem_spec decimal_runtime 100 widget fresh_system)
    as (Hfind & _ & _ & _ & _ & _ & Hnext).
  split; [|exact Hfind].
  apply Hnext. unfold int_min, int_max. simpl. lia.
Defined.

Lemma processNextOrder_frame_witness :
  processNextOrder 100 fresh_system
  = print ("No orders to process!" ++ newline) fresh_system.
Proof.
  destruct (processNextOrder_frame decimal_runtime 100 fresh_system)
    as (Hempty & _).
  exact (Hempty eq_refl).
Defined.

(** ** [nextId] over runs *)

Section NextIdRuns.

Context {R : Runtime}.



End NextIdRuns.




(** ** Saving and loading, by id *)

Section SameTuples.

Context {R : Runtime}.

Lemma same_catalog_tuples (m m' : inventory_t) :
  same_catalog m m' -> same_tuples m m'.
Proof.
  unfold same_catalog, same_tuples.
  induction 1 as [|[k v] [k' v'] m m' [Hk Hv] _ IH]; intros id; simpl;
    [exact I|].
  simpl in Hk, Hv. subst k'. destruct (k =? id); [exact Hv | apply IH].
Qed.

Lemma same_catalog_keys (m m' : inventory_t) :
  same_catalog m m' -> map fst m' = map fst m.
Proof.
  unfold same_catalog.
  induction 1 as [|[k v] [k' v'] m m' [Hk _] _ IH]; simpl; [reflexivity|].
  simpl in Hk. now rewrite Hk, IH.
Qed.

Lemma getline_loop_from_prefix (a rest acc : string) :
  free_of nl a = true ->
  getline_loop_from nl acc (a ++ rest) = getline_loop_from nl (acc ++ a) rest.
Proof.
  revert acc. induction a as [|c a IH]; intros acc; simpl.
  - now rewrite append_empty_r.
  - rewrite andb_true_iff, negb_true_iff. intros [-> Ha].
    rewrite IH by assumption. now rewrite append_assoc.
Qed.

(** The first line read starts with what was read so far, whatever
    follows up to the line feed. *)
Lemma getline_loop_from_first (text rest acc : string) :
  exists t lines,
    getline_loop_from nl acc (text ++ String nl rest) = (acc ++ t) :: lines.
Proof.
  revert acc. induction text as [|c text IH]; intros acc.
  - exists "", (getline_loop_from nl "" rest).
    now rewrite append_empty_r.
  - cbn [append getline_loop_from]. destruct (Ascii.eqb c nl).
    + eexists "", _. rewrite append_empty_r. reflexivity.
    + destruct (IH (acc ++ String c "")) as (t & lines & ->).
      exists (String c t), lines. now rewrite append_assoc.
Qed.

Lemma parse_line_nuts_and_bolts (t : string) :
  parse_line ("1,Nuts, bolts,Tools,5," ++ t) = Throw invalid_argument.
Proof.
  unfold parse_line.
  change ("1,Nuts, bolts,Tools,5," ++ t)
    with ("1" ++ "," ++ ("Nuts" ++ "," ++ (" bolts" ++ ","
          ++ ("Tools" ++ "," ++ ("5," ++ t))))).
  rewrite getline_field by reflexivity.
  change (stoi "1") with (Ok 1). cbn [bind].
  rewrite !getline_field by reflexivity.
  change (stoi "Tools") with (@Throw Z invalid_argument). reflexivity.
Qed.

End SameTuples.

(** C5, for the catalogs the file format can carry.  When no name and no
    category of the catalog holds a comma or a line feed, and the text of
    each price is read back as a price with the same text, the
    constructor loads the file [saveToFile] writes into a catalog with
    the same ids and as many entries, in which every id has the record it
    had, the price compared by its two-decimal text. *)
Theorem save_load_same_tuples :
  forall (R : Runtime) (s : WarehouseSystem) (console : string),
    reachable s ->
    Forall (fun e => saves_cleanly (snd e) = true) (inventory s) ->
    exists s',
      WarehouseSystem_new (file (saveToFile s)) console = Ok s'
      /\ same_tuples (inventory s) (inventory s')
      /\ map fst (inventory s') = map fst (inventory s).
Proof.
  intros R s console Hreach Hclean.
  destruct (reachable_invariant s Hreach) as [_ He Hs].
  destruct (load_rows (inventory s) [] 1 Hs He Hclean) as (m' & next' & Hl & Hsame);
    [constructor|].
  unfold saveToFile, set_file. cbn [file].
  unfold WarehouseSystem_new, loadFromFile. cbn [file inventory nextId].
  rewrite csv_of_lines by exact Hclean. cbn [tl].
  rewrite Hl. cbn [bind fst snd app].
  eexists. split; [reflexivity|]. cbn [inventory initializeCategoryTree
    set_categoryRoot set_nextId set_inventory]. split.
  - now apply same_catalog_tuples.
  - now apply same_catalog_keys.
Qed.

Lemma save_load_same_tuples_witness :
  let s := run [OpAddItem 100 widget; OpAddItem 101 anvil; OpAddItem 102 bolt]
               fresh_system in
  exists s',
    WarehouseSystem_new (file (saveToFile s)) "" = Ok s'
    /\ same_tuples (inventory s) (inventory s')
    /\ map fst (inventory s') = [1; 2; 5].
Proof.
  intro s.
  assert (Hreach : reachable s).
  { apply reachable_run; [|solve_ints]. now apply (reachable_new None ""). }
  assert (Hclean : Forall (fun e => saves_cleanly (snd e) = true) (inventory s))
    by (repeat constructor; vm_compute; reflexivity).
  destruct (save_load_same_tuples decimal_runtime s "" Hreach Hclean)
    as (s' & Hnew & Hsame & Hkeys).
  exists s'. split; [exact Hnew|]. split; [exact Hsame | exact Hkeys].
Defined.

(** C5, as stated, fails: an item named "Nuts, bolts" is saved with its
    comma, and in the row the text after the comma is taken for the
    category and the category for the quantity, on which [std::stoi]
    throws; whatever the runtime, the constructor builds no object from
    the file. *)
Lemma save_load_comma_in_name :
  ~ (exists (R : Runtime) (s' : WarehouseSystem),
       @WarehouseSystem_new R
         (file (@saveToFile R
                  (@run R [OpAddItem 100 nuts_and_bolts] fresh_system))) ""
       = Ok s').
Proof.
  intros (R & s' & Hnew).
  unfold WarehouseSystem_new, loadFromFile in Hnew.
  cbn [run fold_left step addItem saveToFile set_file file inventory nextId
       set_inventory set_nextId set_categoryRoot addTransaction
       set_transactionHistory fresh_system map_assign] in Hnew.
  unfold csv_of in Hnew. cbn [csv_rows] in Hnew.
  rewrite csv_row_line in Hnew.
  change (csv_header ++ csv_line nuts_and_bolts ++ String nl "")
    with ("ID,Name,Category,Quantity,Price,MinStockLevel"
          ++ String nl (("1,Nuts, bolts,Tools,5,"
                         ++ (fixed2 1.5%float ++ ",2")) ++ String nl ""))
    in Hnew.
  unfold getline_loop in Hnew.
  rewrite getline_loop_from_line in Hnew by reflexivity. cbn [tl] in Hnew.
  rewrite append_assoc in Hnew.
  rewrite getline_loop_from_prefix in Hnew by reflexivity.
  change ("" ++ "1,Nuts, bolts,Tools,5,") with "1,Nuts, bolts,Tools,5,"
    in Hnew.
  destruct (getline_loop_from_first (fixed2 1.5%float ++ ",2") ""
              "1,Nuts, bolts,Tools,5,") as (t & lines & Hlines).
  rewrite Hlines in Hnew. cbn [load_lines] in Hnew.
  rewrite parse_line_nuts_and_bolts in Hnew. discriminate Hnew.
Qed.
